(** * Extended Kalman filter for the CTRV vehicle model

    A shallow embedding of the filter loop of
    [Extended-Kalman-Filter-CTRV.py] (lines 406-507) together with the
    configuration constants it reads (lines 58-67, 124, 163-169, 279-285,
    320, 348, 365), and of the lines that turn the log into the arrays the
    loop indexes (lines 240, 329-340).

    Conventions of the embedding.
    - Python floats are idealised as real numbers; rounding is not
      modelled.  Float literals keep the decimal form of the source.
    - [np.matrix] values are functions from indices to reals.  A column
      vector (the state [x], the measurement [Z]) is a [Vec]; a matrix is a
      [Mat].  Every index the source uses is a literal inside the shape, so
      what these functions return outside the shape is never read.
    - Division is the total division of the reals, as numpy's float
      division is total (it yields a non-finite value and goes on).  The
      denominators a step divides by are listed by [prediction_divisors]
      and [jacobian_divisors].  Where one of them is zero the code holds
      no number any more, and the value the total division gives there
      says nothing about it: every theorem below that rests on the value
      of such a quotient carries the hypothesis that the divisors of the
      step are not zero ([step_divides_safely], [divides_safely]).
    - [np.linalg.inv] is the one operation of the loop that raises; it is
      modelled by [inv], which returns [None] on a singular matrix. *)

From Stdlib Require Import Reals Lra Lia List ZArith Bool Psatz.
From Stdlib Require Import FunctionalExtensionality.
Import ListNotations.
Open Scope R_scope.

(** ** Vectors and matrices *)

Definition Vec := nat -> R.
Definition Mat := nat -> nat -> R.

(** [np.matrix([[...]]).T] for a single row, and [np.matrix([[...],...])]. *)
Definition of_list (l : list R) : Vec := fun i => nth i l 0.
Definition of_rows (rows : list (list R)) : Mat :=
  fun i j => nth j (nth i rows []) 0.

(** [np.diag([...])] and [np.eye(n)]. *)
Definition diag (l : list R) : Mat :=
  fun i j => if Nat.eqb i j then nth i l 0 else 0.
Definition eye : Mat := fun i j => if Nat.eqb i j then 1 else 0.

(** Sum of [f 0 .. f (n-1)]. *)
Fixpoint rsum (n : nat) (f : nat -> R) : R :=
  match n with
  | O => 0
  | S k => rsum k f + f k
  end.

(** [A * B] with inner dimension [n], [A.T], [A + B], [A - B]. *)
Definition mmul (n : nat) (A B : Mat) : Mat :=
  fun i j => rsum n (fun k => A i k * B k j).
Definition transpose (A : Mat) : Mat := fun i j => A j i.
Definition madd (A B : Mat) : Mat := fun i j => A i j + B i j.
Definition msub (A B : Mat) : Mat := fun i j => A i j - B i j.

(** Matrix times column, and sums and differences of columns. *)
Definition mvmul (n : nat) (A : Mat) (v : Vec) : Vec :=
  fun i => rsum n (fun k => A i k * v k).
Definition vadd (u v : Vec) : Vec := fun i => u i + v i.
Definition vsub (u v : Vec) : Vec := fun i => u i - v i.

(** In-place assignment [x[i] = v]. *)
Definition upd (x : Vec) (i : nat) (v : R) : Vec :=
  fun k => if Nat.eqb k i then v else x k.

(** *** Determinant and inverse

    In exact arithmetic [np.linalg.inv(S)] is the inverse of [S] when
    [det S <> 0] and raises [LinAlgError] otherwise.  The inverse is
    written here as adjugate over determinant, with the determinant
    expanded along the first row. *)

Definition skip (i r : nat) : nat := if Nat.ltb r i then r else S r.
Definition minor (A : Mat) (i j : nat) : Mat :=
  fun r c => A (skip i r) (skip j c).

Fixpoint det (n : nat) (A : Mat) : R :=
  match n with
  | O => 1
  | S m => rsum (S m) (fun j => (-1) ^ j * A O j * det m (minor A O j))
  end.

Definition adj (n : nat) (A : Mat) : Mat :=
  fun i j => (-1) ^ (i + j) * det (pred n) (minor A j i).

Definition inv (n : nat) (A : Mat) : option Mat :=
  if Req_EM_T (det n A) 0 then None
  else Some (fun i j => adj n A i j / det n A).

(** *** Symmetry and definiteness *)

Definition symmetric (n : nat) (A : Mat) : Prop :=
  forall i j, (i < n)%nat -> (j < n)%nat -> A i j = A j i.

(** The quadratic form [v.T * A * v]. *)
Definition quad (n : nat) (A : Mat) (v : Vec) : R :=
  rsum n (fun i => v i * rsum n (fun j => A i j * v j)).

Definition psd (n : nat) (A : Mat) : Prop := forall v, 0 <= quad n A v.
Definition pd (n : nat) (A : Mat) : Prop :=
  forall v, (exists i, (i < n)%nat /\ v i <> 0) -> 0 < quad n A v.
Definition diagonal (n : nat) (A : Mat) : Prop :=
  forall i j, (i < n)%nat -> (j < n)%nat -> i <> j -> A i j = 0.

(** [np.remainder(a, b)], the [%] of numpy: [a - floor(a / b) * b]. *)
Definition remainder (a b : R) : R := a - IZR (Int_part (a / b)) * b.

(** ** Input samples

    One column of the arrays the loop indexes by [filterstep]: the planar
    position [mx], [my], the course and speed of the log, the raw yaw rate
    [yawrate] of the log and the position-fix trigger [GPS]. *)

Record Sample := {
  mx : R;
  my : R;
  course : R;
  speed : R;
  yawrate : R;
  GPS : bool
}.

(** Line 365: [measurements = np.vstack((mx, my, speed/3.6,
    yawrate/180.0*np.pi))]; [Z] is the column of the current step. *)
Definition Z (s : Sample) : Vec :=
  of_list [mx s; my s; speed s / 3.6; yawrate s / 180.0 * PI].

(** Line 348: the initial state, read from the first sample. *)
Definition x_init (s : Sample) : Vec :=
  of_list [mx s; my s; course s / 180.0 * PI; speed s / 3.6 + 0.001;
           yawrate s / 180.0 * PI].

(** ** The filter loop *)

Section Filter.

(** The globals the loop body reads: the prediction interval [dt], the
    process noise [Q] and the measurement noise [R] (named [Rm] here, [R]
    being the type of the reals). *)
Variable dt : R.
Variable Q : Mat.
Variable Rm : Mat.

(** Line 320 of the setup: [I = np.eye(numstates)]. *)
Definition I : Mat := eye.

(** Lines 412-415. *)
Definition ddstate (s : Sample) : BinNums.Z :=
  if Rlt_dec (Rabs (yawrate s)) 0.0001 then 0%Z else 1%Z.

(** Lines 416-425. *)
Definition JH (s : Sample) : Mat :=
  if GPS s then
    of_rows [[1.0; 0.0; 0.0; 0.0; 0.0];
             [0.0; 1.0; 0.0; 0.0; 0.0];
             [0.0; 0.0; 0.0; 1.0; 0.0];
             [0.0; 0.0; 0.0; 0.0; 1.0]]
  else
    of_rows [[0.0; 0.0; 0.0; 0.0; 0.0];
             [0.0; 0.0; 0.0; 0.0; 0.0];
             [0.0; 0.0; 0.0; 1.0; 0.0];
             [0.0; 0.0; 0.0; 0.0; 1.0]].

(** Lines 429-430: the row handed to the CSV writer, every entry passed
    through [float].  It is built from the state [x] as it is when the
    step begins; the strings are made before [x] is assigned to. *)
Definition dataout (x : Vec) (s : Sample) : list R :=
  [x 0%nat; x 1%nat; x 2%nat; x 3%nat; x 4%nat;
   Z s 0%nat; Z s 1%nat; Z s 2%nat; Z s 3%nat;
   IZR (ddstate s); if GPS s then 1 else 0].

(** Lines 437-450: the time update of the state, assignment by
    assignment. *)
Definition predict (x : Vec) (s : Sample) : Vec :=
  if Z.eqb (ddstate s) 0 then
    let x := upd x 0 (x 0%nat + x 3%nat * dt * cos (x 2%nat)) in
    let x := upd x 1 (x 1%nat + x 3%nat * dt * sin (x 2%nat)) in
    let x := upd x 2 (x 2%nat) in
    let x := upd x 3 (x 3%nat) in
    let x := upd x 4 0.0000001 in
    x
  else
    let x := upd x 0 (x 0%nat + (x 3%nat / x 4%nat)
                      * (sin (x 4%nat * dt + x 2%nat) - sin (x 2%nat))) in
    let x := upd x 1 (x 1%nat + (x 3%nat / x 4%nat)
                      * (- cos (x 4%nat * dt + x 2%nat) + cos (x 2%nat))) in
    let x := upd x 2 (remainder (x 2%nat + x 4%nat * dt + PI) (2.0 * PI)
                      - PI) in
    let x := upd x 3 (x 3%nat) in
    let x := upd x 4 (x 4%nat) in
    x.

(** The denominators of lines 445-446, in the order they are evaluated;
    the straight branch divides by nothing. *)
Definition prediction_divisors (x : Vec) (s : Sample) : list R :=
  if Z.eqb (ddstate s) 0 then [] else [x 4%nat; x 4%nat].

(** Lines 454-464: the Jacobian of the dynamic matrix. *)
Definition a13 (x : Vec) : R :=
  (x 3%nat / x 4%nat) * (cos (x 4%nat * dt + x 2%nat) - cos (x 2%nat)).
Definition a14 (x : Vec) : R :=
  (1.0 / x 4%nat) * (sin (x 4%nat * dt + x 2%nat) - sin (x 2%nat)).
Definition a15 (x : Vec) : R :=
  (dt * x 3%nat / x 4%nat) * cos (x 4%nat * dt + x 2%nat)
  - (x 3%nat / x 4%nat ^ 2) * (sin (x 4%nat * dt + x 2%nat) - sin (x 2%nat)).
Definition a23 (x : Vec) : R :=
  (x 3%nat / x 4%nat) * (sin (x 4%nat * dt + x 2%nat) - sin (x 2%nat)).
Definition a24 (x : Vec) : R :=
  (1.0 / x 4%nat) * (- cos (x 4%nat * dt + x 2%nat) + cos (x 2%nat)).
Definition a25 (x : Vec) : R :=
  (dt * x 3%nat / x 4%nat) * sin (x 4%nat * dt + x 2%nat)
  - (x 3%nat / x 4%nat ^ 2)
    * (- cos (x 4%nat * dt + x 2%nat) + cos (x 2%nat)).

Definition JA (x : Vec) : Mat :=
  of_rows [[1.0; 0.0; a13 x; a14 x; a15 x];
           [0.0; 1.0; a23 x; a24 x; a25 x];
           [0.0; 0.0; 1.0; 0.0; dt];
           [0.0; 0.0; 0.0; 1.0; 0.0];
           [0.0; 0.0; 0.0; 0.0; 1.0]].

(** The denominators of lines 454-459, in the order they are evaluated. *)
Definition jacobian_divisors (x : Vec) : list R :=
  [x 4%nat; x 4%nat; x 4%nat; x 4%nat ^ 2;
   x 4%nat; x 4%nat; x 4%nat; x 4%nat ^ 2].

(** Line 468: [P = JA*P*JA.T + Q]. *)
Definition P_pred (x : Vec) (P : Mat) (s : Sample) : Mat :=
  let JA := JA (predict x s) in
  madd (mmul 5 (mmul 5 JA P) (transpose JA)) Q.

(** Lines 473-476. *)
Definition hx (x : Vec) : Vec :=
  of_list [x 0%nat; x 1%nat; x 3%nat; x 4%nat].

(** Line 480: [S = JH*P*JH.T + R]. *)
Definition S_of (P : Mat) (s : Sample) : Mat :=
  madd (mmul 5 (mmul 5 (JH s) P) (transpose (JH s))) Rm.

(** Line 481: [K = (P*JH.T) * np.linalg.inv(S)], given the inverse. *)
Definition K_of (P : Mat) (s : Sample) (Sinv : Mat) : Mat :=
  mmul 4 (mmul 5 P (transpose (JH s))) Sinv.

(** Lines 480-487: the measurement update, from the predicted state and
    covariance. *)
Definition correct (x : Vec) (P : Mat) (s : Sample) : option (Vec * Mat) :=
  let S := S_of P s in
  match inv 4 S with
  | None => None
  | Some Sinv =>
      let K := K_of P s Sinv in
      let y := vsub (Z s) (hx x) in
      let x := vadd x (mvmul 4 K y) in
      let P := mmul 5 (msub I (mmul 4 K (JH s))) P in
      Some (x, P)
  end.

(** One pass of the loop body on the state [(x, P)]: the new state, or
    [None] when the inversion raises. *)
Definition filterstep (x : Vec) (P : Mat) (s : Sample)
  : option (Vec * Mat) :=
  correct (predict x s) (P_pred x P s) s.

(** The loop of line 410 over the samples.  It returns the rows written
    so far and the final state, or [None] in its place when a step
    raised; the row of a step is written before the step computes. *)
Fixpoint run (samples : list Sample) (x : Vec) (P : Mat)
  : list (list R) * option (Vec * Mat) :=
  match samples with
  | [] => ([], Some (x, P))
  | s :: rest =>
      match filterstep x P s with
      | None => ([dataout x s], None)
      | Some (x', P') =>
          let (rows, final) := run rest x' P' in
          (dataout x s :: rows, final)
      end
  end.

(** The state with which step [k] begins. *)
Fixpoint state_at (k : nat) (samples : list Sample) (x : Vec) (P : Mat)
  : option (Vec * Mat) :=
  match k, samples with
  | O, _ => Some (x, P)
  | S k', [] => None
  | S k', s :: rest =>
      match filterstep x P s with
      | None => None
      | Some (x', P') => state_at k' rest x' P'
      end
  end.

End Filter.

(** ** The symbolic motion model

    Lines 75-82: the column [gs] from which the notebook derives the
    Jacobian, as a function of the state and of the interval [T]. *)
Definition gs (T : R) (state : Vec) : Vec :=
  let xs := state 0%nat in
  let ys := state 1%nat in
  let psis := state 2%nat in
  let vs := state 3%nat in
  let dpsis := state 4%nat in
  of_list [xs + (vs / dpsis) * (sin (psis + dpsis * T) - sin psis);
           ys + (vs / dpsis) * (- cos (psis + dpsis * T) + cos psis);
           psis + dpsis * T;
           vs;
           dpsis].

(** The partial derivative of [f] in its [j]-th argument at [x] is [l]. *)
Definition partial (f : Vec -> R) (j : nat) (x : Vec) (l : R) : Prop :=
  derivable_pt_lim (fun t => f (upd x j t)) (x j) l.

(** ** The configuration of the notebook *)

Module Notebook.

(** Line 58. *)
Definition numstates : nat := 5.

(** Line 66. *)
Definition dt : R := 1.0 / 50.0.

(** Line 124. *)
Definition P : Mat := diag [1000.0; 1000.0; 1000.0; 1000.0; 1000.0].

(** Lines 163-168; [sGPS] is assigned again at line 279, the value bound
    here is the one [Q] is built from. *)
Definition sGPS : R := 0.5 * 8.8 * dt ^ 2.
Definition sCourse : R := 0.1 * dt.
Definition sVelocity : R := 8.8 * dt.
Definition sYaw : R := 1.0 * dt.
Definition Q : Mat :=
  diag [sGPS ^ 2; sGPS ^ 2; sCourse ^ 2; sVelocity ^ 2; sYaw ^ 2].

(** Lines 279-285; the [sGPS] of line 279 is written [sGPS_R]. *)
Definition sGPS_R : R := 5.0.
Definition sspeed : R := 2.0.
Definition syaw : R := 0.01.
Definition R : Mat :=
  of_rows [[sGPS_R ^ 2; 0.0; 0.0; 0.0];
           [0.0; sGPS_R ^ 2; 0.0; 0.0];
           [0.0; 0.0; sspeed ^ 2; 0.0];
           [0.0; 0.0; 0.0; syaw ^ 2]].

(** The loop of the notebook on a log whose first sample is [s0]. *)
Definition main (s0 : Sample) (rest : list Sample)
  : list (list Rdefinitions.R) * option (Vec * Mat) :=
  run dt Q R (s0 :: rest) (x_init s0) P.

End Notebook.

(** ** From the log to the samples

    Lines 205-232 read the columns of the log, all of one length; a log
    is modelled as the list of its lines, a column as the list of one
    field.  Lines 240 and 329-340 turn the columns into the arrays the
    loop indexes. *)

Module Log.

Record line := {
  latitude : R;
  longitude : R;
  altitude : R;
  course : R;
  speed : R;
  yawrate : R
}.

End Log.

(** [np.diff(a)]: [a[i+1] - a[i]]. *)
Fixpoint diff (a : list R) : list R :=
  match a with
  | u :: ((v :: _) as rest) => (v - u) :: diff rest
  | _ => []
  end.

(** [np.cumsum(a)]; [cumsum_from acc a] continues a sum that stands at
    [acc]. *)
Fixpoint cumsum_from (acc : R) (a : list R) : list R :=
  match a with
  | [] => []
  | u :: rest => (acc + u) :: cumsum_from (acc + u) rest
  end.

Definition cumsum (a : list R) : list R :=
  match a with
  | [] => []
  | u :: rest => u :: cumsum_from u rest
  end.

(** An elementwise operation on two arrays of one length. *)
Fixpoint elementwise (f : R -> R -> R) (a b : list R) : list R :=
  match a, b with
  | u :: a', v :: b' => f u v :: elementwise f a' b'
  | _, _ => []
  end.

(** Line 329. *)
Definition RadiusEarth : R := 6378388.0.

(** Line 330. *)
Definition arc (log : list Log.line) : list R :=
  map (fun l => 2.0 * PI * (RadiusEarth + Log.altitude l) / 360.0) log.

(** Lines 332-333. *)
Definition dx (log : list Log.line) : list R :=
  elementwise Rmult
    (elementwise Rmult (arc log)
       (map (fun l => cos (Log.latitude l * PI / 180.0)) log))
    (0.0 :: diff (map Log.longitude log)).

Definition dy (log : list Log.line) : list R :=
  elementwise Rmult (arc log) (0.0 :: diff (map Log.latitude log)).

(** Lines 335-336; the fields of [Sample] already bear the names [mx]
    and [my], the arrays are [mxs] and [mys]. *)
Definition mxs (log : list Log.line) : list R := cumsum (dx log).
Definition mys (log : list Log.line) : list R := cumsum (dy log).

(** Line 338. *)
Definition ds (log : list Log.line) : list R :=
  elementwise (fun u v => sqrt (u ^ 2 + v ^ 2)) (dx log) (dy log).

(** Line 340: the trigger of the position fix. *)
Definition GPSs (log : list Log.line) : list bool :=
  true :: map (fun d => if Rlt_dec 0.0 d then true else false)
              (diff (ds log)).

(** Line 240. *)
Definition courses (log : list Log.line) : list R :=
  map (fun l => - Log.course l + 90.0) log.

(** What the loop and line 348 read at index [k]. *)
Definition sample_at (log : list Log.line) (k : nat) : Sample :=
  {| mx := nth k (mxs log) 0;
     my := nth k (mys log) 0;
     course := nth k (courses log) 0;
     speed := nth k (map Log.speed log) 0;
     yawrate := nth k (map Log.yawrate log) 0;
     GPS := nth k (GPSs log) false |}.

(** Line 367 and the range of line 410. *)
Definition samples (log : list Log.line) : list Sample :=
  map (sample_at log) (seq 0 (length (mxs log))).

(** Lines 348 and 410-487 on a log of at least one line: the initial
    state is read at index 0 and the loop runs over every index. *)
Definition notebook (log : list Log.line)
  : list (list R) * option (Vec * Mat) :=
  run Notebook.dt Notebook.Q Notebook.R (samples log)
    (x_init (sample_at log 0)) Notebook.P.

(** ** The histories kept for the plots

    Lines 491-507 append one value to each of seventeen lists at the end
    of every step; the lists are modelled as one list of records, a field
    for each list. *)

Module Plots.

Record saved := {
  x0 : R; x1 : R; x2 : R; x3 : R; x4 : R;
  Zx : R; Zy : R;
  Px : R; Py : R; Pdx : R; Pdy : R; Pddx : R;
  Kx : R; Ky : R; Kdx : R; Kdy : R; Kddx : R
}.

End Plots.

Section History.

Variable dt : R.
Variable Q : Mat.
Variable Rm : Mat.

(** The values lines 491-507 append in the step that starts from
    [(x, P)], or [None] when the inversion of line 481 raises. *)
Definition saved_of (x : Vec) (P : Mat) (s : Sample) : option Plots.saved :=
  let xp := predict dt x s in
  let Pp := P_pred dt Q x P s in
  match inv 4 (S_of Rm Pp s) with
  | None => None
  | Some Sinv =>
      let K := K_of Pp s Sinv in
      let x' := vadd xp (mvmul 4 K (vsub (Z s) (hx xp))) in
      let P' := mmul 5 (msub I (mmul 4 K (JH s))) Pp in
      Some {| Plots.x0 := x' 0%nat; Plots.x1 := x' 1%nat;
              Plots.x2 := x' 2%nat; Plots.x3 := x' 3%nat;
              Plots.x4 := x' 4%nat;
              Plots.Zx := Z s 0%nat; Plots.Zy := Z s 1%nat;
              Plots.Px := P' 0%nat 0%nat; Plots.Py := P' 1%nat 1%nat;
              Plots.Pdx := P' 2%nat 2%nat; Plots.Pdy := P' 3%nat 3%nat;
              Plots.Pddx := P' 4%nat 4%nat;
              Plots.Kx := K 0%nat 0%nat; Plots.Ky := K 1%nat 0%nat;
              Plots.Kdx := K 2%nat 0%nat; Plots.Kdy := K 3%nat 0%nat;
              Plots.Kddx := K 4%nat 0%nat |}
  end.

(** The histories after the loop; a step that raises ends them. *)
Fixpoint history (samples : list Sample) (x : Vec) (P : Mat)
  : list Plots.saved :=
  match samples with
  | [] => []
  | s :: rest =>
      match saved_of x P s, filterstep dt Q Rm x P s with
      | Some h, Some (x', P') => h :: history rest x' P'
      | _, _ => []
      end
  end.

(** Lines 443 and 450: [dstate] grows during the prediction, before the
    inversion, so the step that raises has its flag recorded. *)
Fixpoint dstate (samples : list Sample) (x : Vec) (P : Mat)
  : list BinNums.Z :=
  match samples with
  | [] => []
  | s :: rest =>
      ddstate s ::
      match filterstep dt Q Rm x P s with
      | Some (x', P') => dstate rest x' P'
      | None => []
      end
  end.

End History.

(** ** Steps that divide by nothing but nonzero values *)

(** No division of the step that starts from [x] is by zero (lines
    445-446 and 454-459). *)
Definition step_divides_safely (dt : R) (x : Vec) (s : Sample) : Prop :=
  Forall (fun d => d <> 0)
    (prediction_divisors x s ++ jacobian_divisors (predict dt x s)).

(** No division of the loop is by zero, as far as the loop runs. *)
Fixpoint divides_safely (dt : R) (Q Rm : Mat) (samples : list Sample)
    (x : Vec) (P : Mat) : Prop :=
  match samples with
  | [] => True
  | s :: rest =>
      step_divides_safely dt x s
      /\ match filterstep dt Q Rm x P s with
         | Some (x', P') => divides_safely dt Q Rm rest x' P'
         | None => True
         end
  end.

(** ** The wrap of the specification

    Modelled from the spec: the source wraps the heading with
    [(a + pi) % (2*pi) - pi] and has no wrap into the interval the
    specification names, "range (-pi, pi], wrapped after every
    prediction".  [wrap_spec a] is the angle of that interval that
    differs from [a] by a whole number of turns. *)
Definition wrap_spec (a : R) : R := PI - remainder (PI - a) (2 * PI).

(** ** Auxiliary notions of linear algebra *)

(** The scalar product of two columns, and column [j] of a matrix. *)
Definition dot (n : nat) (u v : Vec) : R := rsum n (fun i => u i * v i).
Definition col (A : Mat) (j : nat) : Vec := fun i => A i j.

(** A column with a zero put in front, and the signed minors of the
    first row. *)
Definition shift (v : Vec) : Vec :=
  fun i => match i with O => 0 | S k => v k end.
Definition cofactors (n : nat) (A : Mat) : Vec :=
  fun j => (-1) ^ j * det n (minor A O j).

(** What [inv 4 A] holds when it holds a matrix. *)
Definition inverse4 (A : Mat) : Mat := fun i j => adj 4 A i j / det 4 A.

(** ** Inputs for the examples *)

Module Example.

(** A state at the origin, heading along the first axis at 1 m/s. *)
Definition state : Vec := of_list [0; 0; 0; 1; 0].

(** A sample below the yaw-rate threshold, one above it, and the sample
    that reports what [state] lets expect after a straight step. *)
Definition straight : Sample :=
  {| mx := 0.02; my := 0; course := 0; speed := 3.6; yawrate := 0;
     GPS := true |}.
Definition turning : Sample :=
  {| mx := 0.04; my := 0; course := 0; speed := 3.6; yawrate := 1;
     GPS := false |}.
Definition expected : Sample :=
  {| mx := 0.02; my := 0; course := 0; speed := 3.6;
     yawrate := 0.0000001 * 180 / PI; GPS := true |}.

(** A sample without a fix that differs from [turning] in its position
    only, and a state on a turn of radius 10. *)
Definition elsewhere : Sample :=
  {| mx := 7; my := -3; course := 0; speed := 3.6; yawrate := 1;
     GPS := false |}.
Definition circling : Vec := of_list [0; 0; 0; 5; 0.5].

(** A matrix of zeros. *)
Definition zero : Mat := fun _ _ => 0.

(** A sample below the yaw-rate threshold without a position fix, and a
    measurement noise whose first variance is zero. *)
Definition coasting : Sample :=
  {| mx := 0.04; my := 0; course := 0; speed := 3.6; yawrate := 0;
     GPS := false |}.

(** Two lines of a log, a hundredth of a degree apart. *)
Definition line_a : Log.line :=
  {| Log.latitude := 51; Log.longitude := 13; Log.altitude := 100;
     Log.course := 90; Log.speed := 36; Log.yawrate := 0 |}.
Definition line_b : Log.line :=
  {| Log.latitude := 51.01; Log.longitude := 13.01; Log.altitude := 100;
     Log.course := 90; Log.speed := 36; Log.yawrate := 0 |}.

End Example.


(** * Properties *)

(** ** Reading literals, indices and branches *)

Ltac mat_unfold :=
  cbv [of_list of_rows diag eye nth upd vadd vsub mvmul mmul madd msub
       transpose rsum Nat.eqb Nat.ltb Nat.leb skip minor det adj quad
       Init.Nat.pred Nat.add pow].

(** Case analysis on an index below a literal bound. *)
Ltac index_cases i H :=
  repeat (destruct i as [|i]; [| apply (proj2 (Nat.succ_lt_mono _ _)) in H]);
  try (exfalso; exact (Nat.nlt_0_r _ H)).

Lemma ddstate_straight (s : Sample) :
  ddstate s = 0%Z <-> Rabs (yawrate s) < 0.0001.
Proof.
  unfold ddstate. destruct (Rlt_dec (Rabs (yawrate s)) 0.0001); split;
    intros; try assumption; try reflexivity; try discriminate.
  contradiction.
Qed.

Lemma ddstate_turning (s : Sample) :
  ddstate s = 1%Z <-> ~ Rabs (yawrate s) < 0.0001.
Proof.
  unfold ddstate. destruct (Rlt_dec (Rabs (yawrate s)) 0.0001); split;
    intros; try assumption; try reflexivity; try discriminate.
  contradiction.
Qed.

Lemma ddstate_cases (s : Sample) : ddstate s = 0%Z \/ ddstate s = 1%Z.
Proof.
  unfold ddstate. destruct (Rlt_dec (Rabs (yawrate s)) 0.0001); auto.
Qed.

(** ** The remainder of numpy *)

Lemma remainder_bounds (a b : R) : 0 < b -> 0 <= remainder a b < b.
Proof.
  intros Hb. unfold remainder.
  destruct (base_Int_part (a / b)) as [Hlo Hhi].
  assert (Ha : a = a / b * b) by (field; lra).
  set (q := a / b) in *. set (k := IZR (Int_part q)) in *.
  rewrite Ha. split; nra.
Qed.

Lemma Int_part_1 : Int_part 1 = 1%Z.
Proof.
  destruct (base_Int_part 1) as [Hlo Hhi].
  assert (H1 : (Int_part 1 < 2)%Z) by (apply lt_IZR; lra).
  assert (H2 : (0 < Int_part 1)%Z) by (apply lt_IZR; lra).
  lia.
Qed.

Lemma remainder_self (b : R) : b <> 0 -> remainder b b = 0.
Proof.
  intros Hb. unfold remainder.
  replace (b / b) with 1 by (field; assumption).
  rewrite Int_part_1. lra.
Qed.

Lemma Int_part_unit (q : R) : 0 <= q < 1 -> Int_part q = 0%Z.
Proof.
  intros [Hlo Hhi]. destruct (base_Int_part q) as [H1 H2].
  assert (Ha : (Int_part q < 1)%Z) by (apply lt_IZR; lra).
  assert (Hb : (-1 < Int_part q)%Z) by (apply lt_IZR; lra).
  lia.
Qed.

Lemma remainder_small (a b : R) : 0 <= a < b -> remainder a b = a.
Proof.
  intros [Hlo Hhi]. unfold remainder. rewrite Int_part_unit; [lra|].
  split.
  - apply Rmult_le_pos; [exact Hlo|]. apply Rlt_le, Rinv_0_lt_compat. lra.
  - apply (Rmult_lt_reg_r b); [lra|]. unfold Rdiv.
    rewrite Rmult_assoc, Rinv_l by lra. lra.
Qed.

(** ** Selection of the motion-model branch *)

(** C1, as stated, fails: the state [(0, 0, 0, 1, 1)] has a yaw rate of
    1 rad/s, far above the threshold, and a sample whose raw yaw rate is 0
    still sends the step down the straight-line branch, which overwrites
    the yaw rate of the state with the epsilon. *)
Lemma C1_branch_ignores_state :
  let x := of_list [0; 0; 0; 1; 1] in
  let s := {| mx := 0; my := 0; course := 0; speed := 0; yawrate := 0;
              GPS := true |} in
  ddstate s = 0%Z
  /\ predict (1 / 50) x s 4%nat = 0.0000001
  /\ ~ Rabs (x 4%nat) < 0.0001.
Proof.
  cbv zeta.
  assert (Hd : ddstate {| mx := 0; my := 0; course := 0; speed := 0;
                           yawrate := 0; GPS := true |} = 0%Z).
  { apply ddstate_straight. simpl. rewrite Rabs_R0. lra. }
  split; [exact Hd|]. split.
  - unfold predict. rewrite Hd. reflexivity.
  - mat_unfold. rewrite Rabs_R1. lra.
Qed.

(** C1, amended: the branch of the motion model a step takes is decided
    by the raw yaw rate of the sample of that step, [yawrate[filterstep]],
    and by nothing else, whatever the state: when the absolute value of
    that sample is below 0.0001 the flag is 0 and the prediction is the
    straight-line one (linear advance, heading kept, yaw rate set to the
    epsilon); when it is not, the flag is 1 and the prediction is the
    turning one (yaw rate kept, heading wrapped into [[-pi, pi)], and,
    where the yaw rate of the state is not zero, the closed form of the
    position). *)
Theorem C1_branch_by_sample_yaw_rate (dt : R) (x : Vec) (s : Sample) :
  (Rabs (yawrate s) < 0.0001 ->
   ddstate s = 0%Z
   /\ predict dt x s 0%nat = x 0%nat + x 3%nat * dt * cos (x 2%nat)
   /\ predict dt x s 1%nat = x 1%nat + x 3%nat * dt * sin (x 2%nat)
   /\ predict dt x s 2%nat = x 2%nat
   /\ predict dt x s 4%nat = 0.0000001)
  /\ (0.0001 <= Rabs (yawrate s) ->
      ddstate s = 1%Z
      /\ predict dt x s 4%nat = x 4%nat
      /\ - PI <= predict dt x s 2%nat < PI
      /\ (x 4%nat <> 0 ->
          predict dt x s 0%nat
          = x 0%nat + (x 3%nat / x 4%nat)
                      * (sin (x 4%nat * dt + x 2%nat) - sin (x 2%nat))
          /\ predict dt x s 1%nat
             = x 1%nat + (x 3%nat / x 4%nat)
                         * (- cos (x 4%nat * dt + x 2%nat)
                            + cos (x 2%nat)))).
Proof.
  split; intros Hy.
  - assert (Hd : ddstate s = 0%Z) by (apply ddstate_straight; exact Hy).
    split; [exact Hd|]. unfold predict. rewrite Hd.
    change (Z.eqb 0 0) with true. repeat split; reflexivity.
  - assert (Hd : ddstate s = 1%Z) by (apply ddstate_turning; lra).
    split; [exact Hd|]. unfold predict. rewrite Hd.
    change (Z.eqb 1 0) with false. cbv zeta.
    split; [reflexivity|]. split.
    + mat_unfold. assert (Hpi := PI_RGT_0).
      pose proof (remainder_bounds (x 2%nat + x 4%nat * dt + PI)
                    (2.0 * PI)) as Hb.
      lra.
    + intros _. split; reflexivity.
Qed.

(** ** The two branches of the prediction *)

(** C2: on the straight-line branch the position advances by
    [v*dt*cos(psi)] and [v*dt*sin(psi)], heading and velocity are kept,
    and the yaw rate becomes the epsilon 0.0000001, which is not zero. *)
Theorem C2_straight_branch (dt : R) (x : Vec) (s : Sample) :
  ddstate s = 0%Z ->
  let x' := predict dt x s in
  x' 0%nat = x 0%nat + x 3%nat * dt * cos (x 2%nat)
  /\ x' 1%nat = x 1%nat + x 3%nat * dt * sin (x 2%nat)
  /\ x' 2%nat = x 2%nat
  /\ x' 3%nat = x 3%nat
  /\ x' 4%nat = 0.0000001
  /\ x' 4%nat <> 0.
Proof.
  intros Hd x'. subst x'. unfold predict. rewrite Hd.
  change (Z.eqb 0 0) with true. cbv iota zeta.
  repeat split; try reflexivity.
  mat_unfold. lra.
Qed.

Lemma C2_straight_branch_witness :
  let x := of_list [0; 0; 0; 1; 0] in
  let s := {| mx := 0.02; my := 0; course := 0; speed := 3.6;
              yawrate := 0; GPS := true |} in
  predict (1 / 50) x s 4%nat <> 0.
Proof.
  intros x s.
  refine (proj2 (proj2 (proj2 (proj2 (proj2
            (C2_straight_branch (1 / 50) x s _)))))).
  apply ddstate_straight. simpl. rewrite Rabs_R0. lra.
Defined.

(** C3, as stated, fails at the end of the interval: the wrap of the
    specification keeps a heading of [pi], the wrap of line 447 turns it
    into [-pi], which the interval [(-pi, pi]] does not hold. *)
Lemma C3_wrap_differs_at_pi :
  let x := of_list [0; 0; PI - 1 / 50; 1; 1] in
  let s := {| mx := 0; my := 0; course := 0; speed := 0; yawrate := 1;
              GPS := true |} in
  ddstate s = 1%Z
  /\ predict (1 / 50) x s 2%nat = - PI
  /\ wrap_spec (x 2%nat + x 4%nat * (1 / 50)) = PI
  /\ predict (1 / 50) x s 2%nat
     <> wrap_spec (x 2%nat + x 4%nat * (1 / 50)).
Proof.
  cbv zeta. assert (Hpi := PI_RGT_0).
  assert (Hd : ddstate {| mx := 0; my := 0; course := 0; speed := 0;
                          yawrate := 1; GPS := true |} = 1%Z).
  { apply ddstate_turning. simpl. rewrite Rabs_R1. lra. }
  assert (Hp : predict (1 / 50) (of_list [0; 0; PI - 1 / 50; 1; 1])
                 {| mx := 0; my := 0; course := 0; speed := 0;
                    yawrate := 1; GPS := true |} 2%nat = - PI).
  { unfold predict. rewrite Hd. change (Z.eqb 1 0) with false. mat_unfold.
    replace (PI - 1 / 50 + 1 * (1 / 50) + PI) with (2.0 * PI) by lra.
    rewrite remainder_self by lra. lra. }
  assert (Hw : wrap_spec (of_list [0; 0; PI - 1 / 50; 1; 1] 2%nat
                          + of_list [0; 0; PI - 1 / 50; 1; 1] 4%nat
                            * (1 / 50)) = PI).
  { unfold wrap_spec. mat_unfold.
    replace (PI - (PI - 1 / 50 + 1 * (1 / 50))) with 0 by lra.
    rewrite remainder_small by lra. lra. }
  split; [exact Hd|]. split; [exact Hp|]. split; [exact Hw|].
  rewrite Hp, Hw. lra.
Qed.

(** C3, amended: on the turning branch the heading becomes the angle of
    [[-pi, pi)] that differs from [psi + psi_dot*dt] by a whole number of
    turns (so a heading that reaches [pi] becomes [-pi]), velocity and
    yaw rate are kept, and, the yaw rate not being zero, the position
    follows the closed form of the CTRV integration. *)
Theorem C3_turning_branch (dt : R) (x : Vec) (s : Sample) :
  ddstate s = 1%Z ->
  let x' := predict dt x s in
  (x 4%nat <> 0 ->
   x' 0%nat = x 0%nat + (x 3%nat / x 4%nat)
                        * (sin (x 4%nat * dt + x 2%nat) - sin (x 2%nat))
   /\ x' 1%nat = x 1%nat + (x 3%nat / x 4%nat)
                           * (- cos (x 4%nat * dt + x 2%nat)
                              + cos (x 2%nat)))
  /\ - PI <= x' 2%nat < PI
  /\ (exists k : BinNums.Z,
        x' 2%nat = x 2%nat + x 4%nat * dt - 2 * IZR k * PI)
  /\ x' 3%nat = x 3%nat
  /\ x' 4%nat = x 4%nat.
Proof.
  intros Hd x'. subst x'. unfold predict. rewrite Hd.
  change (Z.eqb 1 0) with false. cbv iota zeta.
  assert (Hpi := PI_RGT_0).
  split; [intros _; split; reflexivity|].
  split; [|split; [|split; reflexivity]].
  - mat_unfold.
    pose proof (remainder_bounds (x 2%nat + x 4%nat * dt + PI) (2.0 * PI))
      as Hb.
    lra.
  - mat_unfold. unfold remainder.
    exists (Int_part ((x 2%nat + x 4%nat * dt + PI) / (2.0 * PI))). lra.
Qed.

Lemma C3_turning_branch_witness :
  let x := of_list [0; 0; 0; 5; 0.5] in
  let s := {| mx := 0; my := 0; course := 0; speed := 18;
              yawrate := 90 / PI; GPS := false |} in
  - PI <= predict (1 / 50) x s 2%nat < PI
  /\ predict (1 / 50) x s 3%nat = 5 /\ predict (1 / 50) x s 4%nat = 0.5.
Proof.
  intros x s.
  assert (Hd : ddstate s = 1%Z).
  { apply ddstate_turning. subst s. simpl.
    assert (Hpi := PI_RGT_0). assert (Hpi4 := PI_4).
    rewrite Rabs_pos_eq.
    - intros H. apply (Rmult_lt_compat_r PI) in H; [|lra].
      unfold Rdiv in H. rewrite Rmult_assoc, Rinv_l in H; lra.
    - apply Rlt_le, Rdiv_lt_0_compat; lra. }
  destruct (C3_turning_branch (1 / 50) x s Hd) as (_ & H2 & _ & H3 & H4).
  split; [exact H2|]. split; [exact H3 | exact H4].
Defined.

(** ** Range of the heading after the prediction *)

(** C6, as stated, fails on both branches.  The straight-line branch does
    not wrap: a heading of 5 rad stays 5 rad.  The turning branch wraps
    into an interval closed on the left: a heading that reaches [pi]
    becomes [-pi], which lies outside [(-pi, pi]]. *)
Lemma C6_heading_outside_interval :
  (let x := of_list [0; 0; 5; 1; 0] in
   let s := {| mx := 0; my := 0; course := 0; speed := 0; yawrate := 0;
               GPS := true |} in
   ddstate s = 0%Z
   /\ ~ (- PI < predict (1 / 50) x s 2%nat <= PI))
  /\ (let x := of_list [0; 0; PI - 1 / 50; 1; 1] in
      let s := {| mx := 0; my := 0; course := 0; speed := 0; yawrate := 1;
                  GPS := true |} in
      ddstate s = 1%Z
      /\ ~ (- PI < predict (1 / 50) x s 2%nat <= PI)).
Proof.
  assert (Hpi := PI_RGT_0). assert (Hpi4 := PI_4).
  split; cbv zeta.
  - assert (Hd : ddstate {| mx := 0; my := 0; course := 0; speed := 0;
                            yawrate := 0; GPS := true |} = 0%Z).
    { apply ddstate_straight. simpl. rewrite Rabs_R0. lra. }
    split; [exact Hd|].
    unfold predict. rewrite Hd. change (Z.eqb 0 0) with true.
    mat_unfold. lra.
  - assert (Hd : ddstate {| mx := 0; my := 0; course := 0; speed := 0;
                            yawrate := 1; GPS := true |} = 1%Z).
    { apply ddstate_turning. simpl. rewrite Rabs_R1. lra. }
    split; [exact Hd|].
    unfold predict. rewrite Hd. change (Z.eqb 1 0) with false.
    mat_unfold.
    replace (PI - 1 / 50 + 1 * (1 / 50) + PI) with (2.0 * PI) by lra.
    rewrite remainder_self by lra. lra.
Qed.

(** C6, amended: after a prediction on the turning branch the heading
    lies in [[-pi, pi)]; a prediction on the straight-line branch leaves
    the heading as it found it. *)
Theorem C6_heading_after_prediction (dt : R) (x : Vec) (s : Sample) :
  (ddstate s = 1%Z ->
   - PI <= predict dt x s 2%nat < PI)
  /\ (ddstate s = 0%Z -> predict dt x s 2%nat = x 2%nat).
Proof.
  split; intros Hd; unfold predict; rewrite Hd.
  - change (Z.eqb 1 0) with false. mat_unfold.
    assert (Hpi := PI_RGT_0).
    pose proof (remainder_bounds (x 2%nat + x 4%nat * dt + PI) (2.0 * PI))
      as Hb.
    lra.
  - reflexivity.
Qed.

(** ** The Jacobian of the motion model *)

(** Rules of differentiation on functions written as abstractions. *)
Section Differentiation.

Variables (f g : R -> R) (x l1 l2 : R).

Lemma dlim_const (c : R) : derivable_pt_lim (fun _ => c) x 0.
Proof. exact (derivable_pt_lim_const c x). Qed.

Lemma dlim_id : derivable_pt_lim (fun t => t) x 1.
Proof. exact (derivable_pt_lim_id x). Qed.

Lemma dlim_plus :
  derivable_pt_lim f x l1 -> derivable_pt_lim g x l2 ->
  derivable_pt_lim (fun t => f t + g t) x (l1 + l2).
Proof. exact (derivable_pt_lim_plus f g x l1 l2). Qed.

Lemma dlim_minus :
  derivable_pt_lim f x l1 -> derivable_pt_lim g x l2 ->
  derivable_pt_lim (fun t => f t - g t) x (l1 - l2).
Proof. exact (derivable_pt_lim_minus f g x l1 l2). Qed.

Lemma dlim_opp :
  derivable_pt_lim f x l1 -> derivable_pt_lim (fun t => - f t) x (- l1).
Proof. exact (derivable_pt_lim_opp f x l1). Qed.

Lemma dlim_mult :
  derivable_pt_lim f x l1 -> derivable_pt_lim g x l2 ->
  derivable_pt_lim (fun t => f t * g t) x (l1 * g x + f x * l2).
Proof. exact (derivable_pt_lim_mult f g x l1 l2). Qed.

Lemma dlim_div :
  derivable_pt_lim f x l1 -> derivable_pt_lim g x l2 -> g x <> 0 ->
  derivable_pt_lim (fun t => f t / g t) x
    ((l1 * g x - l2 * f x) / (g x * g x)).
Proof. exact (derivable_pt_lim_div f g x l1 l2). Qed.

Lemma dlim_sin :
  derivable_pt_lim f x l1 ->
  derivable_pt_lim (fun t => sin (f t)) x (cos (f x) * l1).
Proof.
  intros Hf.
  exact (derivable_pt_lim_comp f sin x l1 (cos (f x)) Hf
           (derivable_pt_lim_sin (f x))).
Qed.

Lemma dlim_cos :
  derivable_pt_lim f x l1 ->
  derivable_pt_lim (fun t => cos (f t)) x (- sin (f x) * l1).
Proof.
  intros Hf.
  exact (derivable_pt_lim_comp f cos x l1 (- sin (f x)) Hf
           (derivable_pt_lim_cos (f x))).
Qed.

Lemma dlim_value (l : R) :
  derivable_pt_lim f x l1 -> l1 = l -> derivable_pt_lim f x l.
Proof. intros H <-. exact H. Qed.

End Differentiation.

Ltac differentiate :=
  lazymatch goal with
  | |- derivable_pt_lim (fun t => t) _ _ => apply dlim_id
  | |- derivable_pt_lim (fun t => @?u t + @?v t) _ _ =>
      apply (dlim_plus u v); differentiate
  | |- derivable_pt_lim (fun t => @?u t - @?v t) _ _ =>
      apply (dlim_minus u v); differentiate
  | |- derivable_pt_lim (fun t => @?u t * @?v t) _ _ =>
      apply (dlim_mult u v); differentiate
  | |- derivable_pt_lim (fun t => @?u t / @?v t) _ _ =>
      apply (dlim_div u v); [differentiate | differentiate | ]
  | |- derivable_pt_lim (fun t => - @?u t) _ _ =>
      apply (dlim_opp u); differentiate
  | |- derivable_pt_lim (fun t => sin (@?u t)) _ _ =>
      apply (dlim_sin u); differentiate
  | |- derivable_pt_lim (fun t => cos (@?u t)) _ _ =>
      apply (dlim_cos u); differentiate
  | |- derivable_pt_lim (fun _ => ?c) _ _ => apply dlim_const
  end.

(** Literals such as [1.0] are quotients of integers. *)
Ltac literals := cbv [Q2R QArith_base.Qnum QArith_base.Qden].

(** Wherever the yaw rate is not zero, entry [(i, j)] of [JA] is the
    partial derivative of component [i] of [gs] in the [j]-th state
    variable. *)
Lemma gs_partial (T : R) (x : Vec) (i j : nat) :
  x 4%nat <> 0 -> (i < 5)%nat -> (j < 5)%nat ->
  partial (fun state => gs T state i) j x (JA T x i j).
Proof.
  intros Hx Hi Hj. unfold partial, gs, JA, a13, a14, a15, a23, a24, a25.
  index_cases i Hi; index_cases j Hj;
    cbv [of_list of_rows nth upd Nat.eqb];
    (eapply dlim_value;
     [ differentiate; try assumption
     | cbv beta; rewrite ?(Rplus_comm (x 2%nat) (x 4%nat * T)); literals;
       try (field; assumption) ]).
Qed.

(** The turning branch of [predict] is [gs], with the heading wrapped. *)
Lemma predict_turning_gs (dt : R) (x : Vec) (s : Sample) :
  ddstate s = 1%Z ->
  predict dt x s 0%nat = gs dt x 0%nat
  /\ predict dt x s 1%nat = gs dt x 1%nat
  /\ predict dt x s 2%nat = remainder (gs dt x 2%nat + PI) (2.0 * PI) - PI
  /\ predict dt x s 3%nat = gs dt x 3%nat
  /\ predict dt x s 4%nat = gs dt x 4%nat.
Proof.
  intros Hd. unfold predict, gs. rewrite Hd. change (Z.eqb 1 0) with false.
  mat_unfold. rewrite (Rplus_comm (x 2%nat) (x 4%nat * dt)).
  repeat split; reflexivity.
Qed.

(** The yaw rate the Jacobian is evaluated with. *)
Lemma predict_yaw_rate (dt : R) (x : Vec) (s : Sample) :
  predict dt x s 4%nat = if Z.eqb (ddstate s) 0 then 0.0000001 else x 4%nat.
Proof.
  unfold predict. destruct (Z.eqb (ddstate s) 0); reflexivity.
Qed.

Lemma predict_yaw_rate_nonzero (dt : R) (x : Vec) (s : Sample) :
  ddstate s = 0%Z \/ x 4%nat <> 0 -> predict dt x s 4%nat <> 0.
Proof.
  intros H. rewrite predict_yaw_rate.
  destruct (ddstate_cases s) as [Hd | Hd]; rewrite Hd.
  - change (Z.eqb 0 0) with true. lra.
  - change (Z.eqb 1 0) with false. destruct H as [H | H]; [congruence | exact H].
Qed.

(** C4: at the state the prediction leaves, whose yaw rate is not zero
    (the straight-line branch has put the epsilon there, the turning
    branch keeps the yaw rate the step began with), every entry of the
    hard-coded [JA] is the partial derivative of the matching component
    of the turning-branch model [gs] (lines 77-81, the model of lines
    445-449 before the heading is wrapped) in the matching state
    variable; [JA] is the identity plus the six position partials
    [a13 .. a25] and [dt] at row [psi], column [psi_dot]; and the
    turning branch of the prediction is [gs] with its heading wrapped. *)
Theorem C4_jacobian_is_analytic (dt : R) (x : Vec) (s : Sample)
    (i j : nat) :
  ddstate s = 0%Z \/ x 4%nat <> 0 ->
  (i < 5)%nat -> (j < 5)%nat ->
  let xp := predict dt x s in
  partial (fun state => gs dt state i) j xp (JA dt xp i j)
  /\ JA dt xp i j =
       eye i j
       + match i, j with
         | 0%nat, 2%nat => a13 dt xp
         | 0%nat, 3%nat => a14 dt xp
         | 0%nat, 4%nat => a15 dt xp
         | 1%nat, 2%nat => a23 dt xp
         | 1%nat, 3%nat => a24 dt xp
         | 1%nat, 4%nat => a25 dt xp
         | 2%nat, 4%nat => dt
         | _, _ => 0
         end
  /\ (ddstate s = 1%Z ->
      predict dt x s 0%nat = gs dt x 0%nat
      /\ predict dt x s 1%nat = gs dt x 1%nat
      /\ predict dt x s 2%nat
         = remainder (gs dt x 2%nat + PI) (2.0 * PI) - PI
      /\ predict dt x s 3%nat = gs dt x 3%nat
      /\ predict dt x s 4%nat = gs dt x 4%nat).
Proof.
  intros Hnz Hi Hj xp. split; [|split; [|apply predict_turning_gs]].
  - apply gs_partial; try assumption.
    apply predict_yaw_rate_nonzero. exact Hnz.
  - unfold JA. generalize (a13 dt xp) (a14 dt xp) (a15 dt xp)
      (a23 dt xp) (a24 dt xp) (a25 dt xp). intros.
    index_cases i Hi; index_cases j Hj; mat_unfold; lra.
Qed.

Lemma C4_jacobian_is_analytic_witness :
  let x := of_list [0; 0; 0; 1; 0] in
  let s := {| mx := 0.02; my := 0; course := 0; speed := 3.6;
              yawrate := 0; GPS := true |} in
  let xp := predict (1 / 50) x s in
  partial (fun state => gs (1 / 50) state 0%nat) 4 xp
    (JA (1 / 50) xp 0%nat 4%nat).
Proof.
  intros x s xp.
  refine (proj1 (C4_jacobian_is_analytic (1 / 50) x s 0%nat 4%nat _ _ _)).
  - left. apply ddstate_straight. simpl. rewrite Rabs_R0. lra.
  - lia.
  - lia.
Defined.

(** ** Divisions by the yaw rate *)



(** * The loop as a whole *)


(** ** Finite sums *)

Lemma rsum_ext (n : nat) (f g : nat -> R) :
  (forall i, (i < n)%nat -> f i = g i) -> rsum n f = rsum n g.
Proof.
  induction n as [|n IH]; intros H; simpl; [reflexivity|].
  rewrite IH, H by (intros; auto with arith). reflexivity.
Qed.

Lemma rsum_plus (n : nat) (f g : nat -> R) :
  rsum n (fun i => f i + g i) = rsum n f + rsum n g.
Proof. induction n as [|n IH]; simpl; [|rewrite IH]; ring. Qed.

Lemma rsum_minus (n : nat) (f g : nat -> R) :
  rsum n (fun i => f i - g i) = rsum n f - rsum n g.
Proof. induction n as [|n IH]; simpl; [|rewrite IH]; ring. Qed.

Lemma rsum_scal_l (n : nat) (c : R) (f : nat -> R) :
  rsum n (fun i => c * f i) = c * rsum n f.
Proof. induction n as [|n IH]; simpl; [|rewrite IH]; ring. Qed.

Lemma rsum_scal_r (n : nat) (c : R) (f : nat -> R) :
  rsum n (fun i => f i * c) = rsum n f * c.
Proof. induction n as [|n IH]; simpl; [|rewrite IH]; ring. Qed.

Lemma rsum_swap (n m : nat) (f : nat -> nat -> R) :
  rsum n (fun i => rsum m (fun j => f i j))
  = rsum m (fun j => rsum n (fun i => f i j)).
Proof.
  induction n as [|n IH]; simpl.
  - induction m as [|m IHm]; simpl; [|rewrite <- IHm]; ring.
  - rewrite IH, <- rsum_plus. reflexivity.
Qed.

Lemma rsum_zero (n : nat) (f : nat -> R) :
  (forall i, (i < n)%nat -> f i = 0) -> rsum n f = 0.
Proof.
  induction n as [|n IH]; intros H; simpl; [reflexivity|].
  rewrite IH, H by (intros; auto with arith). ring.
Qed.

Lemma rsum_delta (n i : nat) (f : nat -> R) :
  (i < n)%nat -> rsum n (fun k => eye i k * f k) = f i.
Proof.
  unfold eye. induction n as [|n IH]; intros Hi; [lia|]. simpl.
  destruct (Nat.eq_dec i n) as [-> | Hne].
  - rewrite Nat.eqb_refl, rsum_zero; [ring|].
    intros k Hk. replace (Nat.eqb n k) with false; [ring|].
    symmetry. apply Nat.eqb_neq. lia.
  - rewrite IH by lia. replace (Nat.eqb i n) with false; [ring|].
    symmetry. apply Nat.eqb_neq. exact Hne.
Qed.

(** ** Products of matrices and columns *)

Lemma mvmul_mmul (n m : nat) (A B : Mat) (v : Vec) :
  mvmul n (mmul m A B) v = mvmul m A (mvmul n B v).
Proof.
  apply functional_extensionality. intros i. unfold mvmul, mmul.
  rewrite (rsum_ext n _ (fun j => rsum m (fun k => A i k * B k j * v j)))
    by (intros; rewrite rsum_scal_r; reflexivity).
  rewrite rsum_swap. apply rsum_ext. intros k _.
  rewrite <- rsum_scal_l. apply rsum_ext. intros; ring.
Qed.

Lemma mmul_col (n : nat) (A B : Mat) (i j : nat) :
  mmul n A B i j = mvmul n A (col B j) i.
Proof. reflexivity. Qed.

Lemma mmul_assoc (n m : nat) (A B C : Mat) :
  mmul n (mmul m A B) C = mmul m A (mmul n B C).
Proof.
  apply functional_extensionality. intros i.
  apply functional_extensionality. intros j.
  rewrite !mmul_col. rewrite mvmul_mmul. reflexivity.
Qed.

Lemma dot_mvmul (n m : nat) (u : Vec) (A : Mat) (v : Vec) :
  dot n u (mvmul m A v) = dot m (mvmul n (transpose A) u) v.
Proof.
  unfold dot, mvmul, transpose.
  rewrite (rsum_ext n _ (fun i => rsum m (fun k => u i * A i k * v k))).
  2:{ intros. rewrite <- rsum_scal_l. apply rsum_ext. intros; ring. }
  rewrite rsum_swap. apply rsum_ext. intros k _.
  rewrite <- rsum_scal_r. apply rsum_ext. intros; ring.
Qed.

Lemma dot_comm (n : nat) (u v : Vec) : dot n u v = dot n v u.
Proof. apply rsum_ext. intros; ring. Qed.

Lemma dot_ext (n : nat) (u u' v v' : Vec) :
  (forall i, (i < n)%nat -> u i = u' i) ->
  (forall i, (i < n)%nat -> v i = v' i) ->
  dot n u v = dot n u' v'.
Proof. intros Hu Hv. apply rsum_ext. intros i Hi. rewrite Hu, Hv by exact Hi. reflexivity. Qed.

Lemma mvmul_ext (n : nat) (A A' : Mat) (v v' : Vec) (i : nat) :
  (forall k, (k < n)%nat -> A i k = A' i k) ->
  (forall k, (k < n)%nat -> v k = v' k) ->
  mvmul n A v i = mvmul n A' v' i.
Proof. intros HA Hv. apply rsum_ext. intros k Hk. rewrite HA, Hv by exact Hk. reflexivity. Qed.

Lemma dot_vsub_r (n : nat) (u a b : Vec) :
  dot n u (vsub a b) = dot n u a - dot n u b.
Proof.
  unfold dot, vsub. rewrite <- rsum_minus. apply rsum_ext. intros; ring.
Qed.

Lemma dot_vsub_l (n : nat) (u a b : Vec) :
  dot n (vsub a b) u = dot n a u - dot n b u.
Proof. rewrite dot_comm, dot_vsub_r, !(dot_comm n u). reflexivity. Qed.

Lemma dot_vadd_r (n : nat) (u a b : Vec) :
  dot n u (vadd a b) = dot n u a + dot n u b.
Proof.
  unfold dot, vadd. rewrite <- rsum_plus. apply rsum_ext. intros; ring.
Qed.

Lemma mvmul_msub (n : nat) (A B : Mat) (v : Vec) :
  mvmul n (msub A B) v = vsub (mvmul n A v) (mvmul n B v).
Proof.
  apply functional_extensionality. intros i. unfold mvmul, msub, vsub.
  rewrite <- rsum_minus. apply rsum_ext. intros; ring.
Qed.

Lemma mvmul_madd (n : nat) (A B : Mat) (v : Vec) :
  mvmul n (madd A B) v = vadd (mvmul n A v) (mvmul n B v).
Proof.
  apply functional_extensionality. intros i. unfold mvmul, madd, vadd.
  rewrite <- rsum_plus. apply rsum_ext. intros; ring.
Qed.

Lemma mvmul_vsub (n : nat) (A : Mat) (u v : Vec) :
  mvmul n A (vsub u v) = vsub (mvmul n A u) (mvmul n A v).
Proof.
  apply functional_extensionality. intros i. unfold mvmul, vsub.
  rewrite <- rsum_minus. apply rsum_ext. intros; ring.
Qed.

Lemma mvmul_eye (n : nat) (v : Vec) (i : nat) :
  (i < n)%nat -> mvmul n eye v i = v i.
Proof. intros Hi. unfold mvmul. apply rsum_delta. exact Hi. Qed.

Lemma quad_dot (n : nat) (A : Mat) (v : Vec) :
  quad n A v = dot n v (mvmul n A v).
Proof. reflexivity. Qed.

Lemma transpose_mmul (n : nat) (A B : Mat) :
  transpose (mmul n A B) = mmul n (transpose B) (transpose A).
Proof.
  apply functional_extensionality. intros i.
  apply functional_extensionality. intros j.
  unfold transpose, mmul. apply rsum_ext. intros; ring.
Qed.

Lemma transpose_involutive (A : Mat) : transpose (transpose A) = A.
Proof. reflexivity. Qed.

(** A symmetric matrix acts as its transpose on the left. *)
Lemma mvmul_transpose_symmetric (n : nat) (A : Mat) (v : Vec) (i : nat) :
  symmetric n A -> (i < n)%nat -> mvmul n (transpose A) v i = mvmul n A v i.
Proof.
  intros HA Hi. apply mvmul_ext; [|reflexivity].
  intros k Hk. unfold transpose. apply HA; assumption.
Qed.

(** ** Quadratic forms *)

Lemma bilinear_symmetric (n : nat) (P : Mat) (u v : Vec) :
  symmetric n P -> dot n u (mvmul n P v) = dot n v (mvmul n P u).
Proof.
  intros HP. rewrite dot_mvmul, dot_comm. apply dot_ext; [reflexivity|].
  intros i Hi. apply mvmul_transpose_symmetric; assumption.
Qed.

Lemma congruence_entry (n : nat) (J P : Mat) (i j : nat) :
  mmul n (mmul n J P) (transpose J) i j
  = dot n (col (transpose J) i) (mvmul n P (col (transpose J) j)).
Proof. rewrite mmul_col, mvmul_mmul. reflexivity. Qed.

Lemma congruence_symmetric (n : nat) (J P : Mat) (i j : nat) :
  symmetric n P ->
  mmul n (mmul n J P) (transpose J) i j
  = mmul n (mmul n J P) (transpose J) j i.
Proof.
  intros HP. rewrite !congruence_entry. apply bilinear_symmetric, HP.
Qed.

Lemma congruence_quad (n m : nat) (J P : Mat) (v : Vec) :
  quad n (mmul m (mmul m J P) (transpose J)) v
  = quad m P (mvmul n (transpose J) v).
Proof.
  rewrite !quad_dot, !mvmul_mmul, dot_mvmul. reflexivity.
Qed.

Lemma quad_madd (n : nat) (A B : Mat) (v : Vec) :
  quad n (madd A B) v = quad n A v + quad n B v.
Proof. rewrite !quad_dot, mvmul_madd, dot_vadd_r. reflexivity. Qed.

Lemma quad_ext (n : nat) (A B : Mat) (v : Vec) :
  (forall i j, (i < n)%nat -> (j < n)%nat -> A i j = B i j) ->
  quad n A v = quad n B v.
Proof.
  intros H. rewrite !quad_dot. apply dot_ext; [reflexivity|].
  intros i Hi. apply mvmul_ext; [|reflexivity]. intros k Hk. apply H; assumption.
Qed.

Lemma psd_diag_nonneg (n : nat) (A : Mat) (i : nat) :
  psd n A -> (i < n)%nat -> 0 <= A i i.
Proof.
  intros HA Hi. specialize (HA (eye i)).
  rewrite quad_dot in HA. unfold dot in HA.
  rewrite rsum_delta in HA by exact Hi.
  unfold mvmul in HA.
  rewrite (rsum_ext n _ (fun k => eye i k * A i k)) in HA
    by (intros; ring).
  rewrite rsum_delta in HA by exact Hi. exact HA.
Qed.

Lemma vec_zero_dec (n : nat) (v : Vec) :
  (forall i, (i < n)%nat -> v i = 0)
  \/ (exists i, (i < n)%nat /\ v i <> 0).
Proof.
  induction n as [|n [IH | (i & Hi & Hv)]].
  - left. intros i Hi. lia.
  - destruct (Req_dec (v n) 0) as [Hn | Hn].
    + left. intros i Hi. destruct (Nat.eq_dec i n) as [-> | Hne];
        [exact Hn | apply IH; lia].
    + right. exists n. split; [lia | exact Hn].
  - right. exists i. split; [lia | exact Hv].
Qed.

Lemma pd_psd (n : nat) (A : Mat) : pd n A -> psd n A.
Proof.
  intros HA v. destruct (vec_zero_dec n v) as [Hv | Hv].
  - right. rewrite quad_dot. unfold dot. symmetry. apply rsum_zero.
    intros i Hi. rewrite (Hv i Hi). ring.
  - left. apply HA. exact Hv.
Qed.

(** ** Positive definite matrices are invertible *)


Ltac expand :=
  cbv [mvmul mmul madd msub transpose rsum Nat.eqb Nat.ltb Nat.leb skip
       minor det adj quad dot Init.Nat.pred Nat.add pow shift cofactors].

Lemma pd_minor (n : nat) (A : Mat) :
  (forall v, quad n (minor A 0 0) v = quad (S n) A (shift v)) ->
  pd (S n) A -> pd n (minor A 0 0).
Proof.
  intros Hq HA v (i & Hi & Hv). rewrite Hq. apply HA.
  exists (S i). split; [lia | exact Hv].
Qed.

Lemma pd_det_step (n : nat) (A : Mat) :
  quad (S n) A (cofactors n A) = cofactors n A 0%nat * det (S n) A ->
  det n (minor A 0 0) <> 0 ->
  pd (S n) A -> det (S n) A <> 0.
Proof.
  intros Hq Hm HA Hd.
  assert (Hc : cofactors n A 0%nat <> 0).
  { unfold cofactors. simpl. lra. }
  specialize (HA (cofactors n A)
                 (ex_intro _ 0%nat (conj (Nat.lt_0_succ n) Hc))).
  rewrite Hq, Hd in HA. lra.
Qed.

Lemma pd_det1 (A : Mat) : pd 1 A -> det 1 A <> 0.
Proof. apply pd_det_step; [expand; ring | expand; lra]. Qed.

Lemma pd_det2 (A : Mat) : pd 2 A -> det 2 A <> 0.
Proof.
  intros HA. apply pd_det_step; [expand; ring | | exact HA].
  apply pd_det1, pd_minor; [intros; expand; ring | exact HA].
Qed.

Lemma pd_det3 (A : Mat) : pd 3 A -> det 3 A <> 0.
Proof.
  intros HA. apply pd_det_step; [expand; ring | | exact HA].
  apply pd_det2, pd_minor; [intros; expand; ring | exact HA].
Qed.

Lemma pd_det4 (A : Mat) : pd 4 A -> det 4 A <> 0.
Proof.
  intros HA. apply pd_det_step; [expand; ring | | exact HA].
  apply pd_det3, pd_minor; [intros; expand; ring | exact HA].
Qed.

(** ** The inverse *)


Lemma inv_some (A : Mat) : det 4 A <> 0 -> inv 4 A = Some (inverse4 A).
Proof.
  intros Hd. unfold inv.
  destruct (Req_EM_T (det 4 A) 0); [contradiction | reflexivity].
Qed.

Lemma inv_none (n : nat) (A : Mat) : inv n A = None <-> det n A = 0.
Proof.
  unfold inv. destruct (Req_EM_T (det n A) 0); split; intros;
    try discriminate; auto.
  contradiction.
Qed.

Lemma inv_some_inverse4 (A Ai : Mat) :
  inv 4 A = Some Ai -> det 4 A <> 0 /\ Ai = inverse4 A.
Proof.
  unfold inv. destruct (Req_EM_T (det 4 A) 0); intros H; [discriminate|].
  injection H as <-. split; [assumption | reflexivity].
Qed.

Lemma inverse4_right (A : Mat) (b : Vec) (i : nat) :
  det 4 A <> 0 -> (i < 4)%nat ->
  mvmul 4 A (mvmul 4 (inverse4 A) b) i = b i.
Proof.
  intros Hd Hi. unfold inverse4.
  index_cases i Hi; cbv [mvmul rsum adj Init.Nat.pred Nat.add pow];
    set (d := det 4 A) in *;
    assert (Hdd : d = det 4 A) by reflexivity; clearbody d;
    cbv [minor skip Nat.ltb Nat.leb det rsum pow] in *;
    field_simplify_eq; [ rewrite Hdd; ring | exact Hd
                       | rewrite Hdd; ring | exact Hd
                       | rewrite Hdd; ring | exact Hd
                       | rewrite Hdd; ring | exact Hd ].
Qed.

Lemma inverse4_symmetric (A : Mat) :
  symmetric 4 A -> symmetric 4 (inverse4 A).
Proof.
  intros HA i j Hi Hj. unfold inverse4. f_equal.
  index_cases i Hi; index_cases j Hj; try reflexivity; expand;
    rewrite ?(HA 1%nat 0%nat ltac:(lia) ltac:(lia)),
            ?(HA 2%nat 0%nat ltac:(lia) ltac:(lia)),
            ?(HA 2%nat 1%nat ltac:(lia) ltac:(lia)),
            ?(HA 3%nat 0%nat ltac:(lia) ltac:(lia)),
            ?(HA 3%nat 1%nat ltac:(lia) ltac:(lia)),
            ?(HA 3%nat 2%nat ltac:(lia) ltac:(lia)); ring.
Qed.

(** ** The covariance through the time update *)

Lemma P_pred_symmetric (dt : R) (Q : Mat) (x : Vec) (P : Mat) (s : Sample) :
  symmetric 5 P -> symmetric 5 Q -> symmetric 5 (P_pred dt Q x P s).
Proof.
  intros HP HQ i j Hi Hj. unfold P_pred, madd.
  rewrite (congruence_symmetric 5 _ P i j HP), (HQ i j Hi Hj). reflexivity.
Qed.

Lemma P_pred_quad (dt : R) (Q : Mat) (x : Vec) (P : Mat) (s : Sample)
    (v : Vec) :
  quad 5 (P_pred dt Q x P s) v
  = quad 5 P (mvmul 5 (transpose (JA dt (predict dt x s))) v) + quad 5 Q v.
Proof. unfold P_pred. rewrite quad_madd, congruence_quad. reflexivity. Qed.

Lemma P_pred_psd (dt : R) (Q : Mat) (x : Vec) (P : Mat) (s : Sample) :
  psd 5 P -> psd 5 Q -> psd 5 (P_pred dt Q x P s).
Proof.
  intros HP HQ v. rewrite P_pred_quad.
  apply Rplus_le_le_0_compat; [apply HP | apply HQ].
Qed.

(** ** The innovation covariance *)

Lemma S_of_symmetric (Rm P : Mat) (s : Sample) :
  symmetric 5 P -> symmetric 4 Rm -> symmetric 4 (S_of Rm P s).
Proof.
  intros HP HR i j Hi Hj. unfold S_of, madd.
  rewrite (congruence_symmetric 5 _ P i j HP), (HR i j Hi Hj). reflexivity.
Qed.

Lemma S_of_quad (Rm P : Mat) (s : Sample) (v : Vec) :
  quad 4 (S_of Rm P s) v
  = quad 5 P (mvmul 4 (transpose (JH s)) v) + quad 4 Rm v.
Proof. unfold S_of. rewrite quad_madd, congruence_quad. reflexivity. Qed.

Lemma S_of_pd (Rm P : Mat) (s : Sample) :
  psd 5 P -> pd 4 Rm -> pd 4 (S_of Rm P s).
Proof.
  intros HP HR v Hv. rewrite S_of_quad.
  specialize (HP (mvmul 4 (transpose (JH s)) v)). specialize (HR v Hv). lra.
Qed.

(** ** The covariance through the measurement update *)

Section Update.

Variables (P Rm Si : Mat) (s : Sample).

(** [N] is [JH*P], and [P'] the covariance line 487 assigns. *)
Local Notation N := (mmul 5 (JH s) P).
Local Notation P' := (mmul 5 (msub I (mmul 4 (K_of P s Si) (JH s))) P).

Hypothesis P_symmetric : symmetric 5 P.

Lemma gain_symmetric_form (i : nat) (w : Vec) :
  (i < 5)%nat ->
  mvmul 4 (K_of P s Si) w i = dot 4 (col N i) (mvmul 4 Si w).
Proof.
  intros Hi. unfold K_of. rewrite mvmul_mmul.
  change (dot 4 (fun a => mmul 5 P (transpose (JH s)) i a) (mvmul 4 Si w)
          = dot 4 (col N i) (mvmul 4 Si w)).
  apply dot_ext; [|reflexivity].
  intros a _. unfold col, mmul, transpose. apply rsum_ext.
  intros l Hl. rewrite (P_symmetric i l Hi Hl). ring.
Qed.

Lemma update_entry (i j : nat) :
  (i < 5)%nat ->
  P' i j = P i j - dot 4 (col N i) (mvmul 4 Si (col N j)).
Proof.
  intros Hi. rewrite mmul_col, mvmul_msub. unfold vsub.
  unfold I. rewrite mvmul_eye by exact Hi.
  rewrite mvmul_mmul, gain_symmetric_form by exact Hi. reflexivity.
Qed.

Lemma update_quad (v : Vec) :
  let b := mvmul 5 N v in
  quad 5 P' v = quad 5 P v - dot 4 b (mvmul 4 Si b).
Proof.
  intros b.
  rewrite (quad_ext 5 P'
             (msub P (mmul 4 (transpose N) (mmul 4 Si N)))).
  2:{ intros i j Hi _. rewrite update_entry by exact Hi. reflexivity. }
  rewrite !quad_dot, mvmul_msub, dot_vsub_r.
  rewrite (mvmul_mmul 5 4 (transpose N)), (mvmul_mmul 5 4 Si).
  rewrite (dot_mvmul 5 4 v (transpose N)). reflexivity.
Qed.

Lemma joseph_form (v w : Vec) :
  let b := mvmul 5 N v in
  quad 5 P (vsub v (mvmul 4 (transpose (JH s)) w)) + quad 4 Rm w
  = quad 5 P v - 2 * dot 4 w b + dot 4 w (mvmul 4 (S_of Rm P s) w).
Proof.
  intros b. set (h := mvmul 4 (transpose (JH s)) w).
  assert (Hhv : dot 5 h (mvmul 5 P v) = dot 4 w b).
  { unfold h, b. rewrite mvmul_mmul, (dot_mvmul 4 5 w). reflexivity. }
  assert (Hhh : dot 5 h (mvmul 5 P h)
                = dot 4 w (mvmul 4 (mmul 5 (mmul 5 (JH s) P)
                                      (transpose (JH s))) w)).
  { unfold h. rewrite !mvmul_mmul, (dot_mvmul 4 5 w). reflexivity. }
  unfold S_of. rewrite mvmul_madd, dot_vadd_r, <- Hhh, <- Hhv.
  rewrite !quad_dot, mvmul_vsub, dot_vsub_r, !dot_vsub_l.
  rewrite (bilinear_symmetric 5 P v h P_symmetric). ring.
Qed.

Hypothesis Si_symmetric : symmetric 4 Si.

Lemma update_symmetric : symmetric 5 P'.
Proof.
  intros i j Hi Hj. rewrite !update_entry by assumption.
  rewrite (P_symmetric i j Hi Hj).
  rewrite (bilinear_symmetric 4 Si _ _ Si_symmetric). reflexivity.
Qed.

Hypothesis Si_inverse :
  forall b i, (i < 4)%nat -> mvmul 4 (S_of Rm P s) (mvmul 4 Si b) i = b i.
Hypothesis P_psd : psd 5 P.
Hypothesis Rm_pd : pd 4 Rm.

Lemma update_psd : psd 5 P'.
Proof.
  intros v. rewrite update_quad. cbv zeta.
  set (b := mvmul 5 N v). set (w := mvmul 4 Si b).
  pose proof (joseph_form v w) as HJ. cbv zeta in HJ. fold b in HJ.
  assert (Hw : dot 4 w (mvmul 4 (S_of Rm P s) w) = dot 4 w b).
  { apply dot_ext; [reflexivity|]. intros i Hi. apply Si_inverse, Hi. }
  rewrite Hw in HJ. rewrite (dot_comm 4 b w).
  pose proof (P_psd (vsub v (mvmul 4 (transpose (JH s)) w))) as H1.
  pose proof (pd_psd 4 Rm Rm_pd w) as H2. lra.
Qed.

Lemma update_quad_le (v : Vec) : quad 5 P' v <= quad 5 P v.
Proof.
  rewrite update_quad. cbv zeta.
  set (b := mvmul 5 N v). set (w := mvmul 4 Si b).
  assert (Hb : dot 4 b w = quad 4 (S_of Rm P s) w).
  { rewrite quad_dot, dot_comm. apply dot_ext; [reflexivity|].
    intros i Hi. symmetry. apply Si_inverse, Hi. }
  pose proof (pd_psd 4 _ (S_of_pd Rm P s P_psd Rm_pd) w) as H.
  rewrite Hb. lra.
Qed.

End Update.

Section Steps.

Variables (dt : R) (Q Rm : Mat).
Hypothesis Q_symmetric : symmetric 5 Q.
Hypothesis Q_psd : psd 5 Q.
Hypothesis Rm_symmetric : symmetric 4 Rm.
Hypothesis Rm_pd : pd 4 Rm.

Lemma correct_succeeds (x : Vec) (P : Mat) (s : Sample) :
  symmetric 5 P -> psd 5 P ->
  let Si := inverse4 (S_of Rm P s) in
  correct Rm x P s
  = Some (vadd x (mvmul 4 (K_of P s Si) (vsub (Z s) (hx x))),
          mmul 5 (msub I (mmul 4 (K_of P s Si) (JH s))) P)
  /\ symmetric 4 Si
  /\ (forall b i, (i < 4)%nat ->
        mvmul 4 (S_of Rm P s) (mvmul 4 Si b) i = b i).
Proof.
  intros HP Hpsd Si.
  assert (Hd : det 4 (S_of Rm P s) <> 0)
    by (apply pd_det4, S_of_pd; assumption).
  split; [|split].
  - unfold correct. rewrite (inv_some _ Hd). reflexivity.
  - apply inverse4_symmetric, S_of_symmetric; assumption.
  - intros b i Hi. apply inverse4_right; assumption.
Qed.

Lemma correct_covariance (x : Vec) (P : Mat) (s : Sample) :
  symmetric 5 P -> psd 5 P ->
  exists x' P',
    correct Rm x P s = Some (x', P')
    /\ symmetric 5 P' /\ psd 5 P'
    /\ (forall v, quad 5 P' v <= quad 5 P v).
Proof.
  intros HP Hpsd.
  destruct (correct_succeeds x P s HP Hpsd) as (Hc & HSi & Hinv).
  eexists. eexists. split; [exact Hc|]. split; [|split].
  - apply update_symmetric; assumption.
  - apply (update_psd P Rm); assumption.
  - intros v. apply (update_quad_le P Rm); assumption.
Qed.

Lemma filterstep_covariance (x : Vec) (P : Mat) (s : Sample) :
  symmetric 5 P -> psd 5 P ->
  exists x' P',
    filterstep dt Q Rm x P s = Some (x', P')
    /\ symmetric 5 P' /\ psd 5 P'.
Proof.
  intros HP Hpsd. unfold filterstep.
  destruct (correct_covariance (predict dt x s) (P_pred dt Q x P s) s)
    as (x' & P' & Hc & Hs & Hp & _).
  - apply P_pred_symmetric; assumption.
  - apply P_pred_psd; assumption.
  - exists x', P'. auto.
Qed.

Lemma run_completes (samples : list Sample) (x : Vec) (P : Mat) :
  symmetric 5 P -> psd 5 P ->
  exists rows x' P',
    run dt Q Rm samples x P = (rows, Some (x', P'))
    /\ length rows = length samples
    /\ symmetric 5 P' /\ psd 5 P'.
Proof.
  revert x P. induction samples as [|s rest IH]; intros x P HP Hpsd.
  - exists [], x, P. simpl. auto.
  - destruct (filterstep_covariance x P s HP Hpsd)
      as (x1 & P1 & Hstep & HP1 & Hpsd1).
    destruct (IH x1 P1 HP1 Hpsd1) as (rows & x' & P' & Hrun & Hlen & H).
    exists (dataout x s :: rows), x', P'.
    simpl. rewrite Hstep, Hrun. simpl. rewrite Hlen. auto.
Qed.

End Steps.

(** ** The constants of the notebook *)

Lemma diag_symmetric (n : nat) (l : list R) : symmetric n (diag l).
Proof.
  intros i j _ _. unfold diag.
  destruct (Nat.eq_dec i j) as [-> | Hne]; [reflexivity|].
  replace (Nat.eqb i j) with false by (symmetry; apply Nat.eqb_neq; exact Hne).
  replace (Nat.eqb j i) with false
    by (symmetry; apply Nat.eqb_neq; intros H; apply Hne; symmetry; exact H).
  reflexivity.
Qed.

Ltac expand5 :=
  cbv [quad rsum diag of_rows nth Nat.eqb].

Lemma notebook_P_psd : psd 5 Notebook.P.
Proof. intros v. unfold Notebook.P. expand5. nra. Qed.

Lemma notebook_Q_psd : psd 5 Notebook.Q.
Proof.
  intros v. unfold Notebook.Q. expand5.
  pose proof (pow2_ge_0 Notebook.sGPS). pose proof (pow2_ge_0 Notebook.sCourse).
  pose proof (pow2_ge_0 Notebook.sVelocity). pose proof (pow2_ge_0 Notebook.sYaw).
  nra.
Qed.

Lemma notebook_R_symmetric : symmetric 4 Notebook.R.
Proof.
  intros i j Hi Hj. unfold Notebook.R.
  index_cases i Hi; index_cases j Hj; reflexivity.
Qed.

Lemma notebook_R_diagonal : diagonal 4 Notebook.R.
Proof.
  intros i j Hi Hj Hne. unfold Notebook.R.
  index_cases i Hi; index_cases j Hj; try (exfalso; apply Hne; reflexivity);
    cbv [of_rows nth]; lra.
Qed.

Lemma notebook_R_pd : pd 4 Notebook.R.
Proof.
  intros v (i & Hi & Hv). unfold Notebook.R, Notebook.sGPS_R, Notebook.sspeed, Notebook.syaw. expand5.
  assert (H0 : 0 <= v 0%nat * v 0%nat) by nra.
  assert (H1 : 0 <= v 1%nat * v 1%nat) by nra.
  assert (H2 : 0 <= v 2%nat * v 2%nat) by nra.
  assert (H3 : 0 <= v 3%nat * v 3%nat) by nra.
  assert (Hi' : 0 < v i * v i) by nra.
  index_cases i Hi; nra.
Qed.


(** ** Steps without a position fix *)

Section NoFix.

Variables (Rm P : Mat) (s : Sample).
Hypothesis no_fix : GPS s = false.
Hypothesis Rm_diagonal : diagonal 4 Rm.

Lemma JH_no_fix_rows (l : nat) : JH s 0%nat l = 0 /\ JH s 1%nat l = 0.
Proof.
  unfold JH. rewrite no_fix. unfold of_rows.
  do 5 (destruct l as [|l]; [cbv [nth]; lra|]).
  split; simpl; destruct l; reflexivity.
Qed.

Lemma cross_covariance_no_fix (i a : nat) :
  (a < 2)%nat -> mmul 5 P (transpose (JH s)) i a = 0.
Proof.
  intros Ha. unfold mmul, transpose. apply rsum_zero. intros l _.
  destruct (JH_no_fix_rows l) as [H0 H1].
  index_cases a Ha; [rewrite H0 | rewrite H1]; ring.
Qed.

Lemma S_of_no_fix (a c : nat) :
  (a < 4)%nat -> (c < 4)%nat -> (a < 2)%nat \/ (c < 2)%nat -> a <> c ->
  S_of Rm P s a c = 0.
Proof.
  intros Ha Hc Hac Hne. unfold S_of, madd.
  rewrite (Rm_diagonal a c Ha Hc Hne), Rplus_0_r.
  destruct Hac as [H | H].
  - unfold mmul at 1. apply rsum_zero. intros k _.
    replace (mmul 5 (JH s) P a k) with 0; [ring|].
    symmetry. unfold mmul. apply rsum_zero. intros l _.
    destruct (JH_no_fix_rows l) as [H0 H1].
    index_cases a H; [rewrite H0 | rewrite H1]; ring.
  - unfold mmul at 1. apply rsum_zero. intros k _. unfold transpose.
    destruct (JH_no_fix_rows k) as [H0 H1].
    index_cases c H; [rewrite H0 | rewrite H1]; ring.
Qed.

Lemma inverse4_no_fix (a k : nat) :
  (2 <= a < 4)%nat -> (k < 2)%nat ->
  inverse4 (S_of Rm P s) a k = 0.
Proof.
  intros [Ha1 Ha2] Hk. unfold inverse4.
  pose proof (fun a c Ha Hc Hac Hne => S_of_no_fix a c Ha Hc Hac Hne) as HS.
  set (A := S_of Rm P s) in *. clearbody A.
  assert (Hadj : adj 4 A a k = 0).
  { index_cases a Ha2; try lia; index_cases k Hk; expand;
      rewrite ?(HS 0%nat 1%nat), ?(HS 0%nat 2%nat), ?(HS 0%nat 3%nat),
              ?(HS 1%nat 0%nat), ?(HS 1%nat 2%nat), ?(HS 1%nat 3%nat),
              ?(HS 2%nat 0%nat), ?(HS 2%nat 1%nat),
              ?(HS 3%nat 0%nat), ?(HS 3%nat 1%nat) by lia; ring. }
  rewrite Hadj. unfold Rdiv. ring.
Qed.

Lemma gain_no_fix (i k : nat) :
  (k < 2)%nat -> K_of P s (inverse4 (S_of Rm P s)) i k = 0.
Proof.
  intros Hk. unfold K_of, mmul at 1. cbv [rsum].
  rewrite (cross_covariance_no_fix i 0), (cross_covariance_no_fix i 1) by lia.
  rewrite (inverse4_no_fix 2 k), (inverse4_no_fix 3 k) by lia. ring.
Qed.

End NoFix.

Lemma filterstep_no_fix (dt : R) (Q Rm : Mat) (x : Vec) (P : Mat)
    (s1 s2 : Sample) :
  diagonal 4 Rm ->
  GPS s1 = false -> GPS s2 = false ->
  speed s1 = speed s2 -> yawrate s1 = yawrate s2 ->
  filterstep dt Q Rm x P s1 = filterstep dt Q Rm x P s2.
Proof.
  intros HR H1 H2 Hv Hw.
  assert (Hp : predict dt x s1 = predict dt x s2).
  { unfold predict, ddstate. rewrite Hw. reflexivity. }
  assert (HJ : JH s1 = JH s2) by (unfold JH; rewrite H1, H2; reflexivity).
  unfold filterstep, P_pred. rewrite Hp.
  set (xp := predict dt x s2). set (Pp := madd _ Q).
  assert (HS : S_of Rm Pp s1 = S_of Rm Pp s2)
    by (unfold S_of; rewrite HJ; reflexivity).
  unfold correct. rewrite HS.
  destruct (inv 4 (S_of Rm Pp s2)) as [Si|] eqn:Hinv; [|reflexivity].
  apply inv_some_inverse4 in Hinv. destruct Hinv as [_ ->].
  assert (HK : K_of Pp s1 = K_of Pp s2)
    by (unfold K_of; rewrite HJ; reflexivity).
  rewrite HK, HJ. f_equal. f_equal.
  apply functional_extensionality. intros i. unfold vadd. f_equal.
  unfold mvmul. cbv [rsum].
  rewrite !(gain_no_fix Rm Pp s2 H2 HR i 0),
          !(gain_no_fix Rm Pp s2 H2 HR i 1) by lia.
  unfold vsub, Z, of_list. cbv [nth]. rewrite Hv, Hw. ring.
Qed.

(** ** The state through the measurement update *)

Lemma correct_zero_innovation (Rm : Mat) (x : Vec) (P : Mat) (s : Sample)
    (x' : Vec) (P' : Mat) :
  (forall k, (k < 4)%nat -> Z s k = hx x k) ->
  correct Rm x P s = Some (x', P') -> x' = x.
Proof.
  intros Hz. unfold correct.
  destruct (inv 4 (S_of Rm P s)) as [Si|]; [|discriminate].
  intros H. injection H as <- _.
  apply functional_extensionality. intros i. unfold vadd, mvmul.
  rewrite rsum_zero; [ring|].
  intros k Hk. unfold vsub. rewrite (Hz k Hk). ring.
Qed.

(** ** The wrapped heading *)

Lemma cos_sin_period (a : R) (k : BinNums.Z) :
  cos (a + 2 * IZR k * PI) = cos a /\ sin (a + 2 * IZR k * PI) = sin a.
Proof.
  destruct (Z_le_gt_dec 0 k) as [Hk | Hk].
  - rewrite <- (Z2Nat.id k Hk), <- INR_IZR_INZ.
    split; [apply cos_period | apply sin_period].
  - assert (Hn : (0 <= - k)%Z) by lia.
    set (n := Z.to_nat (- k)).
    assert (Hk' : IZR k = - INR n).
    { unfold n. rewrite INR_IZR_INZ, Z2Nat.id by exact Hn.
      rewrite opp_IZR. ring. }
    rewrite Hk'.
    rewrite <- (cos_period (a + 2 * - INR n * PI) n).
    rewrite <- (sin_period (a + 2 * - INR n * PI) n).
    replace (a + 2 * - INR n * PI + 2 * INR n * PI) with a by ring.
    split; reflexivity.
Qed.

Lemma wrap_same_direction (a : R) :
  let a' := remainder (a + PI) (2.0 * PI) - PI in
  cos a' = cos a /\ sin a' = sin a.
Proof.
  cbv zeta. unfold remainder.
  set (k := Int_part ((a + PI) / (2.0 * PI))).
  replace (a + PI - IZR k * (2.0 * PI) - PI) with (a + 2 * IZR (- k) * PI)
    by (rewrite opp_IZR; lra).
  apply cos_sin_period.
Qed.

Lemma wrap_in_range (a : R) :
  - PI <= a < PI -> remainder (a + PI) (2.0 * PI) - PI = a.
Proof.
  intros Ha. rewrite remainder_small; lra.
Qed.

(** ** The path of a prediction *)

Lemma predict_components_turning (dt : R) (x : Vec) (s : Sample) :
  ddstate s = 1%Z ->
  predict dt x s 0%nat
  = x 0%nat + (x 3%nat / x 4%nat)
              * (sin (x 4%nat * dt + x 2%nat) - sin (x 2%nat))
  /\ predict dt x s 1%nat
     = x 1%nat + (x 3%nat / x 4%nat)
                 * (- cos (x 4%nat * dt + x 2%nat) + cos (x 2%nat))
  /\ predict dt x s 2%nat
     = remainder (x 2%nat + x 4%nat * dt + PI) (2.0 * PI) - PI.
Proof.
  intros Hd. unfold predict. rewrite Hd. change (Z.eqb 1 0) with false.
  repeat split; reflexivity.
Qed.

Lemma predict_components_straight (dt : R) (x : Vec) (s : Sample) :
  ddstate s = 0%Z ->
  predict dt x s 0%nat = x 0%nat + x 3%nat * dt * cos (x 2%nat)
  /\ predict dt x s 1%nat = x 1%nat + x 3%nat * dt * sin (x 2%nat)
  /\ predict dt x s 2%nat = x 2%nat.
Proof.
  intros Hd. unfold predict. rewrite Hd. change (Z.eqb 0 0) with true.
  repeat split; reflexivity.
Qed.

Lemma sin2_cos2' (a : R) : sin a * sin a + cos a * cos a = 1.
Proof. pose proof (sin2_cos2 a) as H. unfold Rsqr in H. exact H. Qed.

Lemma turning_on_circle (dt : R) (x : Vec) (s : Sample) :
  ddstate s = 1%Z ->
  let r := x 3%nat / x 4%nat in
  let cx := x 0%nat - r * sin (x 2%nat) in
  let cy := x 1%nat + r * cos (x 2%nat) in
  (x 0%nat - cx) ^ 2 + (x 1%nat - cy) ^ 2 = r ^ 2
  /\ (predict dt x s 0%nat - cx) ^ 2 + (predict dt x s 1%nat - cy) ^ 2
     = r ^ 2.
Proof.
  intros Hd r cx cy.
  destruct (predict_components_turning dt x s Hd) as (H0 & H1 & _).
  rewrite H0, H1. subst cx cy. fold r.
  pose proof (sin2_cos2' (x 2%nat)) as Ha.
  pose proof (sin2_cos2' (x 4%nat * dt + x 2%nat)) as Hb.
  set (sa := sin (x 2%nat)) in *. set (ca := cos (x 2%nat)) in *.
  set (sb := sin (x 4%nat * dt + x 2%nat)) in *.
  set (cb := cos (x 4%nat * dt + x 2%nat)) in *.
  split.
  - replace ((x 0%nat - (x 0%nat - r * sa)) ^ 2
             + (x 1%nat - (x 1%nat + r * ca)) ^ 2)
      with (r ^ 2 * (sa * sa + ca * ca)) by ring.
    rewrite Ha. ring.
  - replace ((x 0%nat + r * (sb - sa) - (x 0%nat - r * sa)) ^ 2
             + (x 1%nat + r * (- cb + ca) - (x 1%nat + r * ca)) ^ 2)
      with (r ^ 2 * (sb * sb + cb * cb)) by ring.
    rewrite Hb. ring.
Qed.

Lemma straight_distance (dt : R) (x : Vec) (s : Sample) :
  ddstate s = 0%Z ->
  (predict dt x s 0%nat - x 0%nat) ^ 2 + (predict dt x s 1%nat - x 1%nat) ^ 2
  = (x 3%nat * dt) ^ 2.
Proof.
  intros Hd.
  destruct (predict_components_straight dt x s Hd) as (H0 & H1 & _).
  rewrite H0, H1. pose proof (sin2_cos2' (x 2%nat)) as Ha.
  set (sa := sin (x 2%nat)) in *. set (ca := cos (x 2%nat)) in *.
  replace ((x 0%nat + x 3%nat * dt * ca - x 0%nat) ^ 2
           + (x 1%nat + x 3%nat * dt * sa - x 1%nat) ^ 2)
    with ((x 3%nat * dt) ^ 2 * (sa * sa + ca * ca)) by ring.
  rewrite Ha. ring.
Qed.

(** ** The first step of the notebook *)

Lemma x_init_yaw_rate_nonzero (s : Sample) :
  ddstate s = 1%Z -> x_init s 4%nat <> 0.
Proof.
  intros Hd. apply ddstate_turning in Hd.
  unfold x_init, of_list. cbv [nth].
  assert (Hpi := PI_RGT_0).
  intros H0.
  assert (Hy : yawrate s = 0).
  { apply (Rmult_eq_reg_r (PI / 180.0)); [|lra]. lra. }
  apply Hd. rewrite Hy, Rabs_R0. lra.
Qed.

Lemma first_step_divisors (s0 : Sample) :
  Forall (fun d => d <> 0)
    (prediction_divisors (x_init s0) s0
     ++ jacobian_divisors (predict Notebook.dt (x_init s0) s0)).
Proof.
  assert (Hnz : predict Notebook.dt (x_init s0) s0 4%nat <> 0).
  { apply predict_yaw_rate_nonzero.
    destruct (ddstate_cases s0) as [Hd | Hd]; [left; exact Hd|].
    right. apply x_init_yaw_rate_nonzero, Hd. }
  apply Forall_app. split.
  - unfold prediction_divisors.
    destruct (ddstate_cases s0) as [Hd | Hd]; rewrite Hd.
    + constructor.
    + change (Z.eqb 1 0) with false.
      pose proof (x_init_yaw_rate_nonzero s0 Hd). repeat constructor; assumption.
  - unfold jacobian_divisors.
    repeat constructor; try assumption; apply pow_nonzero; assumption.
Qed.

(** ** The rows of the output *)

Lemma run_rows (dt : R) (Q Rm : Mat) (samples : list Sample) (x : Vec)
    (P : Mat) (k : nat) (s : Sample) (xk : Vec) (Pk : Mat) :
  state_at dt Q Rm k samples x P = Some (xk, Pk) ->
  nth_error samples k = Some s ->
  nth_error (fst (run dt Q Rm samples x P)) k = Some (dataout xk s).
Proof.
  revert samples x P. induction k as [|k IH]; intros samples x P Hst Hs.
  - destruct samples as [|s0 rest]; [discriminate|].
    simpl in Hs, Hst. injection Hs as ->. injection Hst as -> ->.
    simpl. destruct (filterstep dt Q Rm xk Pk s) as [[x' P']|];
      [destruct (run dt Q Rm rest x' P')|]; reflexivity.
  - destruct samples as [|s0 rest]; [discriminate|].
    simpl in Hs, Hst. simpl.
    destruct (filterstep dt Q Rm x P s0) as [[x' P']|]; [|discriminate].
    specialize (IH rest x' P' Hst Hs).
    destruct (run dt Q Rm rest x' P') as [rows final]. exact IH.
Qed.

Lemma run_final (dt : R) (Q Rm : Mat) (samples : list Sample) (x : Vec)
    (P : Mat) :
  snd (run dt Q Rm samples x P)
  = state_at dt Q Rm (length samples) samples x P.
Proof.
  revert x P. induction samples as [|s rest IH]; intros x P; [reflexivity|].
  simpl. destruct (filterstep dt Q Rm x P s) as [[x' P']|]; [|reflexivity].
  specialize (IH x' P'). destruct (run dt Q Rm rest x' P'). exact IH.
Qed.

(** When step [k] raises, its row is the last one written. *)
Lemma run_rows_on_failure (dt : R) (Q Rm : Mat) (samples : list Sample)
    (x : Vec) (P : Mat) (k : nat) (s : Sample) (xk : Vec) (Pk : Mat) :
  state_at dt Q Rm k samples x P = Some (xk, Pk) ->
  nth_error samples k = Some s ->
  filterstep dt Q Rm xk Pk s = None ->
  snd (run dt Q Rm samples x P) = None
  /\ length (fst (run dt Q Rm samples x P)) = S k.
Proof.
  revert samples x P. induction k as [|k IH]; intros samples x P Hst Hs Hf.
  - destruct samples as [|s0 rest]; [discriminate|].
    simpl in Hs, Hst. injection Hs as ->. injection Hst as -> ->.
    simpl. rewrite Hf. split; reflexivity.
  - destruct samples as [|s0 rest]; [discriminate|].
    simpl in Hs, Hst. simpl.
    destruct (filterstep dt Q Rm x P s0) as [[x' P']|]; [|discriminate].
    specialize (IH rest x' P' Hst Hs Hf).
    destruct (run dt Q Rm rest x' P') as [rows final]. simpl in *.
    destruct IH as [H1 H2]. split; [exact H1 | rewrite H2; reflexivity].
Qed.

(** ** Arrays *)

Lemma length_diff (a : list R) : length (diff a) = Nat.pred (length a).
Proof.
  induction a as [|u [|v rest] IH]; try reflexivity.
  change (length (diff (u :: v :: rest))) with (S (length (diff (v :: rest)))).
  rewrite IH. reflexivity.
Qed.

Lemma nth_diff (a : list R) (k : nat) :
  (S k < length a)%nat -> nth k (diff a) 0 = nth (S k) a 0 - nth k a 0.
Proof.
  revert k. induction a as [|u [|v rest] IH]; intros k Hk; simpl in Hk;
    try lia.
  destruct k as [|k]; [reflexivity|].
  change (nth (S k) (diff (u :: v :: rest)) 0)
    with (nth k (diff (v :: rest)) 0).
  rewrite IH by (simpl; lia). reflexivity.
Qed.

Lemma length_elementwise (f : R -> R -> R) (a b : list R) :
  length (elementwise f a b) = Nat.min (length a) (length b).
Proof.
  revert b. induction a as [|u a IH]; intros [|v b]; simpl; try reflexivity.
  rewrite IH. reflexivity.
Qed.

Lemma nth_elementwise (f : R -> R -> R) (a b : list R) (k : nat) :
  (k < length a)%nat -> (k < length b)%nat ->
  nth k (elementwise f a b) 0 = f (nth k a 0) (nth k b 0).
Proof.
  revert b k. induction a as [|u a IH]; intros [|v b] k Ha Hb; simpl in *;
    try lia.
  destruct k as [|k]; [reflexivity|]. apply IH; lia.
Qed.

Lemma length_cumsum_from (acc : R) (a : list R) :
  length (cumsum_from acc a) = length a.
Proof.
  revert acc. induction a as [|u a IH]; intros acc; simpl; [reflexivity|].
  rewrite IH. reflexivity.
Qed.

Lemma length_cumsum (a : list R) : length (cumsum a) = length a.
Proof.
  destruct a as [|u a]; simpl; [reflexivity|].
  rewrite length_cumsum_from. reflexivity.
Qed.

Lemma cumsum_from_shift (acc : R) (a : list R) :
  cumsum_from acc a = match a with
                      | [] => []
                      | u :: rest => (acc + u) :: cumsum_from (acc + u) rest
                      end.
Proof. destruct a; reflexivity. Qed.

Lemma nth_cumsum_from_step (acc : R) (a : list R) (k : nat) :
  (S k < length a)%nat ->
  nth (S k) (cumsum_from acc a) 0 - nth k (cumsum_from acc a) 0
  = nth (S k) a 0.
Proof.
  revert acc k. induction a as [|u a IH]; intros acc k Hk; simpl in Hk;
    [lia|].
  destruct k as [|k].
  - destruct a as [|v a]; simpl in *; [lia|]. ring.
  - simpl. apply IH. lia.
Qed.

(** Round trip: the differences of the running sums are the summands. *)
Lemma nth_cumsum_step (a : list R) (k : nat) :
  (S k < length a)%nat ->
  nth (S k) (cumsum a) 0 - nth k (cumsum a) 0 = nth (S k) a 0.
Proof.
  intros Hk. destruct a as [|u a]; simpl in Hk; [lia|].
  destruct k as [|k].
  - destruct a as [|v a]; simpl in *; [lia|]. ring.
  - simpl. apply nth_cumsum_from_step. lia.
Qed.

(** ** The arrays of the notebook *)

Lemma length_arc (log : list Log.line) : length (arc log) = length log.
Proof. unfold arc. apply length_map. Qed.

Lemma length_dx (log : list Log.line) : length (dx log) = length log.
Proof.
  unfold dx. rewrite !length_elementwise, length_arc, length_map.
  simpl. rewrite length_diff, length_map. destruct log; simpl; lia.
Qed.

Lemma length_dy (log : list Log.line) : length (dy log) = length log.
Proof.
  unfold dy. rewrite !length_elementwise, length_arc.
  simpl. rewrite length_diff, length_map. destruct log; simpl; lia.
Qed.

Lemma length_mxs (log : list Log.line) : length (mxs log) = length log.
Proof. unfold mxs. rewrite length_cumsum. apply length_dx. Qed.

Lemma length_mys (log : list Log.line) : length (mys log) = length log.
Proof. unfold mys. rewrite length_cumsum. apply length_dy. Qed.

Lemma length_ds (log : list Log.line) : length (ds log) = length log.
Proof.
  unfold ds. rewrite length_elementwise, length_dx, length_dy. lia.
Qed.

Lemma length_GPSs (log : list Log.line) :
  log <> [] -> length (GPSs log) = length log.
Proof.
  intros Hne. unfold GPSs. simpl.
  rewrite length_map, length_diff, length_ds.
  destruct log; [contradiction | reflexivity].
Qed.

Lemma length_samples (log : list Log.line) :
  length (samples log) = length log.
Proof. unfold samples. rewrite length_map, length_seq. apply length_mxs. Qed.


Lemma nth_map_in_range (A B : Type) (f : A -> B) (l : list A) (k : nat)
    (d : A) (d' : B) :
  (k < length l)%nat -> nth k (map f l) d' = f (nth k l d).
Proof.
  intros Hk. rewrite (nth_indep (map f l) d' (f d))
    by (rewrite length_map; exact Hk).
  apply map_nth.
Qed.

Lemma nth_samples (log : list Log.line) (k : nat) :
  (k < length log)%nat ->
  nth_error (samples log) k = Some (sample_at log k).
Proof.
  intros Hk. unfold samples. rewrite nth_error_map.
  rewrite nth_error_seq, length_mxs.
  destruct (Nat.ltb_spec k (length log)) as [_ | H]; [reflexivity | lia].
Qed.

Lemma nth_dx (log : list Log.line) (k : nat) (la lb : Log.line) :
  nth_error log k = Some la -> nth_error log (S k) = Some lb ->
  nth (S k) (dx log) 0
  = 2.0 * PI * (RadiusEarth + Log.altitude lb) / 360.0
    * cos (Log.latitude lb * PI / 180.0)
    * (Log.longitude lb - Log.longitude la).
Proof.
  intros Ha Hb.
  assert (Hk : (S k < length log)%nat)
    by (apply nth_error_Some; rewrite Hb; discriminate).
  unfold dx.
  rewrite nth_elementwise.
  2:{ rewrite length_elementwise, length_arc, length_map. lia. }
  2:{ simpl. rewrite length_diff, length_map. lia. }
  rewrite nth_elementwise by (rewrite ?length_arc, ?length_map; lia).
  unfold arc. rewrite !(nth_map_in_range _ _ _ log (S k) lb) by lia.
  change (nth (S k) (0.0 :: diff (map Log.longitude log)) 0)
    with (nth k (diff (map Log.longitude log)) 0).
  rewrite nth_diff by (rewrite length_map; lia).
  rewrite (nth_map_in_range _ _ _ log (S k) lb),
          (nth_map_in_range _ _ _ log k la) by lia.
  rewrite (nth_error_nth log (S k) lb Hb), (nth_error_nth log k la Ha).
  reflexivity.
Qed.

Lemma nth_dy (log : list Log.line) (k : nat) (la lb : Log.line) :
  nth_error log k = Some la -> nth_error log (S k) = Some lb ->
  nth (S k) (dy log) 0
  = 2.0 * PI * (RadiusEarth + Log.altitude lb) / 360.0
    * (Log.latitude lb - Log.latitude la).
Proof.
  intros Ha Hb.
  assert (Hk : (S k < length log)%nat)
    by (apply nth_error_Some; rewrite Hb; discriminate).
  unfold dy.
  rewrite nth_elementwise.
  2:{ rewrite length_arc. lia. }
  2:{ simpl. rewrite length_diff, length_map. lia. }
  unfold arc. rewrite (nth_map_in_range _ _ _ log (S k) lb) by lia.
  change (nth (S k) (0.0 :: diff (map Log.latitude log)) 0)
    with (nth k (diff (map Log.latitude log)) 0).
  rewrite nth_diff by (rewrite length_map; lia).
  rewrite (nth_map_in_range _ _ _ log (S k) lb),
          (nth_map_in_range _ _ _ log k la) by lia.
  rewrite (nth_error_nth log (S k) lb Hb), (nth_error_nth log k la Ha).
  reflexivity.
Qed.

Lemma nth_ds (log : list Log.line) (k : nat) :
  (k < length log)%nat ->
  nth k (ds log) 0 = sqrt (nth k (dx log) 0 ^ 2 + nth k (dy log) 0 ^ 2).
Proof.
  intros Hk. unfold ds. apply nth_elementwise;
    rewrite ?length_dx, ?length_dy; exact Hk.
Qed.

Lemma nth_GPSs (log : list Log.line) (k : nat) :
  (S k < length log)%nat ->
  nth (S k) (GPSs log) false = true
  <-> nth k (ds log) 0 < nth (S k) (ds log) 0.
Proof.
  intros Hk. unfold GPSs.
  change (nth (S k) (true :: ?l) false) with (nth k l false).
  rewrite (nth_map_in_range _ _ _ (diff (ds log)) k 0)
    by (rewrite length_diff, length_ds; lia).
  rewrite nth_diff by (rewrite length_ds; lia).
  destruct (Rlt_dec 0.0 (nth (S k) (ds log) 0 - nth k (ds log) 0));
    split; intros H; try reflexivity; try discriminate; lra.
Qed.

(** ** The histories *)

Section Histories.

Variables (dt : R) (Q Rm : Mat).

(** A step saves values exactly when it returns a state, and the state
    it saves is the one it returns. *)
Lemma saved_of_filterstep (x : Vec) (P : Mat) (s : Sample) :
  match saved_of dt Q Rm x P s, filterstep dt Q Rm x P s with
  | Some h, Some (x', P') =>
      [Plots.x0 h; Plots.x1 h; Plots.x2 h; Plots.x3 h; Plots.x4 h]
      = [x' 0%nat; x' 1%nat; x' 2%nat; x' 3%nat; x' 4%nat]
      /\ [Plots.Px h; Plots.Py h; Plots.Pdx h; Plots.Pdy h; Plots.Pddx h]
         = [P' 0%nat 0%nat; P' 1%nat 1%nat; P' 2%nat 2%nat; P' 3%nat 3%nat;
            P' 4%nat 4%nat]
      /\ [Plots.Zx h; Plots.Zy h] = [mx s; my s]
  | None, None => True
  | _, _ => False
  end.
Proof.
  unfold saved_of, filterstep, correct.
  destruct (inv 4 (S_of Rm (P_pred dt Q x P s) s)); [|exact Logic.I].
  repeat split.
Qed.

Lemma history_length (samples : list Sample) (x : Vec) (P : Mat)
    (x' : Vec) (P' : Mat) :
  state_at dt Q Rm (length samples) samples x P = Some (x', P') ->
  length (history dt Q Rm samples x P) = length samples
  /\ dstate dt Q Rm samples x P = map ddstate samples.
Proof.
  revert x P. induction samples as [|s rest IH]; intros x P Hst;
    [split; reflexivity|].
  simpl in Hst. simpl.
  pose proof (saved_of_filterstep x P s) as Hs.
  destruct (filterstep dt Q Rm x P s) as [[x1 P1]|]; [|discriminate].
  destruct (saved_of dt Q Rm x P s) as [h|]; [|contradiction].
  destruct (IH x1 P1 Hst) as [H1 H2]. simpl. rewrite H1, H2.
  split; reflexivity.
Qed.

(** Entry [k] of the histories holds the state that row [k+1] of the
    output carries. *)
Lemma history_next_row (samples : list Sample) (x : Vec) (P : Mat)
    (k : nat) (h : Plots.saved) (row : list R) :
  nth_error (history dt Q Rm samples x P) k = Some h ->
  nth_error (fst (run dt Q Rm samples x P)) (S k) = Some row ->
  firstn 5 row
  = [Plots.x0 h; Plots.x1 h; Plots.x2 h; Plots.x3 h; Plots.x4 h].
Proof.
  revert samples x P. induction k as [|k IH]; intros samples x P Hh Hr.
  - destruct samples as [|s rest]; [discriminate|]. simpl in Hh, Hr.
    pose proof (saved_of_filterstep x P s) as Hs.
    destruct (filterstep dt Q Rm x P s) as [[x1 P1]|];
      destruct (saved_of dt Q Rm x P s) as [h0|]; try contradiction;
      try discriminate.
    simpl in Hh. injection Hh as ->. destruct Hs as (Hx & _).
    destruct rest as [|s1 rest]; simpl in Hr.
    + discriminate.
    + destruct (filterstep dt Q Rm x1 P1 s1) as [[x2 P2]|];
        [destruct (run dt Q Rm rest x2 P2)|]; simpl in Hr;
        injection Hr as <-; simpl; symmetry; exact Hx.
  - destruct samples as [|s rest]; [discriminate|]. simpl in Hh, Hr.
    destruct (filterstep dt Q Rm x P s) as [[x1 P1]|];
      destruct (saved_of dt Q Rm x P s) as [h0|]; try discriminate.
    simpl in Hh. specialize (IH rest x1 P1 Hh).
    destruct (run dt Q Rm rest x1 P1) as [rows final]. simpl in Hr.
    apply IH. exact Hr.
Qed.

Hypothesis Rm_diagonal : diagonal 4 Rm.

Lemma saved_gain_no_fix (x : Vec) (P : Mat) (s : Sample) (h : Plots.saved) :
  GPS s = false -> saved_of dt Q Rm x P s = Some h ->
  [Plots.Kx h; Plots.Ky h; Plots.Kdx h; Plots.Kdy h; Plots.Kddx h]
  = [0; 0; 0; 0; 0].
Proof.
  intros Hg. unfold saved_of.
  destruct (inv 4 (S_of Rm (P_pred dt Q x P s) s)) as [Si|] eqn:Hinv;
    [|discriminate].
  apply inv_some_inverse4 in Hinv. destruct Hinv as [_ ->].
  intros H. injection H as <-. simpl.
  rewrite !(gain_no_fix Rm _ s Hg Rm_diagonal _ 0) by lia. reflexivity.
Qed.

Lemma history_gain_no_fix (samples : list Sample) (x : Vec) (P : Mat)
    (k : nat) (s : Sample) (h : Plots.saved) :
  nth_error samples k = Some s -> GPS s = false ->
  nth_error (history dt Q Rm samples x P) k = Some h ->
  [Plots.Kx h; Plots.Ky h; Plots.Kdx h; Plots.Kdy h; Plots.Kddx h]
  = [0; 0; 0; 0; 0].
Proof.
  revert samples x P. induction k as [|k IH]; intros samples x P Hs Hg Hh;
    (destruct samples as [|s0 rest]; [discriminate|]); simpl in Hs, Hh;
    destruct (saved_of dt Q Rm x P s0) as [h0|] eqn:Hsv; try discriminate;
    destruct (filterstep dt Q Rm x P s0) as [[x1 P1]|]; try discriminate;
    simpl in Hh.
  - injection Hs as ->. injection Hh as ->.
    apply (saved_gain_no_fix x P s h Hg Hsv).
  - apply (IH rest x1 P1 Hs Hg Hh).
Qed.

End Histories.

(** * Properties of the loop, the log and the histories *)

Lemma quad_unit (n : nat) (A : Mat) (i : nat) :
  (i < n)%nat -> quad n A (eye i) = A i i.
Proof.
  intros Hi. rewrite quad_dot. unfold dot.
  rewrite rsum_delta by exact Hi. unfold mvmul.
  rewrite (rsum_ext n _ (fun k => eye i k * A i k)) by (intros; ring).
  apply rsum_delta. exact Hi.
Qed.

Lemma notebook_Q_symmetric : symmetric 5 Notebook.Q.
Proof. apply diag_symmetric. Qed.

Lemma notebook_P_symmetric : symmetric 5 Notebook.P.
Proof. apply diag_symmetric. Qed.

Lemma ddstate_example_straight : ddstate Example.straight = 0%Z.
Proof.
  apply ddstate_straight. unfold Example.straight. simpl.
  rewrite Rabs_R0. lra.
Qed.

Lemma ddstate_example_turning : ddstate Example.turning = 1%Z.
Proof.
  apply ddstate_turning. unfold Example.turning. simpl.
  rewrite Rabs_R1. lra.
Qed.

Lemma ddstate_example_coasting : ddstate Example.coasting = 0%Z.
Proof.
  apply ddstate_straight. unfold Example.coasting. simpl.
  rewrite Rabs_R0. lra.
Qed.

(** The divisors of a step are its yaw rate, or the epsilon, and their
    squares. *)
Lemma step_divides_safely_iff (dt : R) (x : Vec) (s : Sample) :
  step_divides_safely dt x s <-> ddstate s = 0%Z \/ x 4%nat <> 0.
Proof.
  unfold step_divides_safely, prediction_divisors, jacobian_divisors.
  rewrite predict_yaw_rate.
  destruct (ddstate_cases s) as [Hd | Hd]; rewrite Hd.
  - change (Z.eqb 0 0) with true. cbv iota. split; [left; reflexivity|].
    intros _. repeat constructor; try lra; apply pow_nonzero; lra.
  - change (Z.eqb 1 0) with false. cbv iota. split.
    + intros H. right. inversion H. assumption.
    + intros [H | H]; [discriminate|].
      repeat constructor; try assumption; apply pow_nonzero; assumption.
Qed.

(** A loop whose samples all stay below the threshold divides by the
    epsilon only. *)
Lemma straight_divides_safely (dt : R) (Q Rm : Mat)
    (samples : list Sample) (x : Vec) (P : Mat) :
  Forall (fun s => ddstate s = 0%Z) samples ->
  divides_safely dt Q Rm samples x P.
Proof.
  intros H. revert x P. induction H as [|s rest Hs _ IH]; intros x P;
    [exact Logic.I|].
  split.
  - apply step_divides_safely_iff. left. exact Hs.
  - destruct (filterstep dt Q Rm x P s) as [[x' P']|];
      [apply IH | exact Logic.I].
Qed.

Lemma example_divides_safely (dt : R) (Q Rm : Mat) (x : Vec) (P : Mat) :
  divides_safely dt Q Rm [Example.straight; Example.coasting] x P.
Proof.
  apply straight_divides_safely.
  repeat constructor;
    [apply ddstate_example_straight | apply ddstate_example_coasting].
Qed.

(** X1: the time update of the covariance, [P = JA*P*JA.T + Q], keeps a
    symmetric positive semidefinite [P] symmetric and positive
    semidefinite when [Q] is, in a step that divides by no zero; its
    quadratic form is that of [P] taken at [JA.T * v] plus that of [Q];
    its diagonal is not negative. *)
Theorem X1_time_update_covariance (dt : R) (Q : Mat) (x : Vec) (P : Mat)
    (s : Sample) :
  symmetric 5 P -> psd 5 P -> symmetric 5 Q -> psd 5 Q ->
  step_divides_safely dt x s ->
  let Pp := P_pred dt Q x P s in
  symmetric 5 Pp
  /\ psd 5 Pp
  /\ (forall v, quad 5 Pp v
                = quad 5 P (mvmul 5 (transpose (JA dt (predict dt x s))) v)
                  + quad 5 Q v)
  /\ (forall i, (i < 5)%nat -> 0 <= Pp i i).
Proof.
  intros HP Hpsd HQ HQpsd _ Pp.
  assert (Hp : psd 5 Pp) by (apply P_pred_psd; assumption).
  split; [apply P_pred_symmetric; assumption|].
  split; [exact Hp|]. split; [intros v; apply P_pred_quad|].
  intros i Hi. apply (psd_diag_nonneg 5); assumption.
Qed.

Lemma X1_time_update_covariance_witness :
  0 <= P_pred Notebook.dt Notebook.Q Example.state Notebook.P
         Example.straight 0%nat 0%nat.
Proof.
  refine (proj2 (proj2 (proj2
    (X1_time_update_covariance Notebook.dt Notebook.Q Example.state
       Notebook.P Example.straight notebook_P_symmetric notebook_P_psd
       notebook_Q_symmetric notebook_Q_psd
       (proj2 (step_divides_safely_iff Notebook.dt Example.state
                 Example.straight)
          (or_introl ddstate_example_straight))))) 0%nat _).
  lia.
Defined.

(** X2: when [P] is symmetric positive semidefinite and [R] symmetric
    positive definite, the innovation covariance [S = JH*P*JH.T + R] is
    symmetric positive definite, its determinant is not zero, and the
    measurement update does not raise. *)
Theorem X2_innovation_invertible (Rm : Mat) (x : Vec) (P : Mat)
    (s : Sample) :
  symmetric 5 P -> psd 5 P -> symmetric 4 Rm -> pd 4 Rm ->
  symmetric 4 (S_of Rm P s)
  /\ pd 4 (S_of Rm P s)
  /\ det 4 (S_of Rm P s) <> 0
  /\ correct Rm x P s <> None.
Proof.
  intros HP Hpsd HR HRpd.
  assert (Hpd : pd 4 (S_of Rm P s)) by (apply S_of_pd; assumption).
  split; [apply S_of_symmetric; assumption|]. split; [exact Hpd|].
  split; [apply pd_det4, Hpd|].
  destruct (correct_succeeds Rm HR HRpd x P s HP Hpsd) as (Hc & _).
  rewrite Hc. discriminate.
Qed.

Lemma X2_innovation_invertible_witness :
  correct Notebook.R Example.state Notebook.P Example.straight <> None.
Proof.
  exact (proj2 (proj2 (proj2
    (X2_innovation_invertible Notebook.R Example.state Notebook.P
       Example.straight notebook_P_symmetric notebook_P_psd
       notebook_R_symmetric notebook_R_pd)))).
Defined.

(** X3: under the same conditions the measurement update
    [P = (I - K*JH)*P] returns a covariance that is again symmetric and
    positive semidefinite, and no variance grows: every diagonal entry of
    the new [P] lies between 0 and the entry it replaces. *)
Theorem X3_measurement_update_covariance (Rm : Mat) (x : Vec) (P : Mat)
    (s : Sample) :
  symmetric 5 P -> psd 5 P -> symmetric 4 Rm -> pd 4 Rm ->
  exists x' P',
    correct Rm x P s = Some (x', P')
    /\ symmetric 5 P'
    /\ psd 5 P'
    /\ (forall i, (i < 5)%nat -> 0 <= P' i i <= P i i).
Proof.
  intros HP Hpsd HR HRpd.
  destruct (correct_covariance Rm HR HRpd x P s HP Hpsd)
    as (x' & P' & Hc & Hs & Hp & Hle).
  exists x', P'. repeat split; try assumption.
  - apply (psd_diag_nonneg 5); assumption.
  - rewrite <- (quad_unit 5 P' i), <- (quad_unit 5 P i) by assumption.
    apply Hle.
Qed.

Lemma X3_measurement_update_covariance_witness :
  exists x' P',
    correct Notebook.R Example.state Notebook.P Example.straight
    = Some (x', P')
    /\ symmetric 5 P' /\ psd 5 P'
    /\ (forall i, (i < 5)%nat -> 0 <= P' i i <= Notebook.P i i).
Proof.
  exact (X3_measurement_update_covariance Notebook.R Example.state
           Notebook.P Example.straight notebook_P_symmetric notebook_P_psd
           notebook_R_symmetric notebook_R_pd).
Defined.

(** X4: with a symmetric positive semidefinite [Q] and initial [P] and a
    symmetric positive definite [R], a loop that divides by no zero never
    raises: it writes one row for each sample and ends with a state whose
    covariance is symmetric and positive semidefinite. *)
Theorem X4_loop_completes (dt : R) (Q Rm : Mat) (samples : list Sample)
    (x : Vec) (P : Mat) :
  symmetric 5 Q -> psd 5 Q -> symmetric 4 Rm -> pd 4 Rm ->
  symmetric 5 P -> psd 5 P ->
  divides_safely dt Q Rm samples x P ->
  exists rows x' P',
    run dt Q Rm samples x P = (rows, Some (x', P'))
    /\ length rows = length samples
    /\ symmetric 5 P' /\ psd 5 P'.
Proof.
  intros HQ HQpsd HR HRpd HP Hpsd _.
  apply run_completes; assumption.
Qed.

Lemma X4_loop_completes_witness :
  exists rows x' P',
    run Notebook.dt Notebook.Q Notebook.R
      [Example.straight; Example.coasting] Example.state Notebook.P
    = (rows, Some (x', P'))
    /\ length rows = 2%nat
    /\ symmetric 5 P' /\ psd 5 P'.
Proof.
  exact (X4_loop_completes Notebook.dt Notebook.Q Notebook.R
           [Example.straight; Example.coasting] Example.state Notebook.P
           notebook_Q_symmetric notebook_Q_psd notebook_R_symmetric
           notebook_R_pd notebook_P_symmetric notebook_P_psd
           (example_divides_safely Notebook.dt Notebook.Q Notebook.R
              Example.state Notebook.P)).
Defined.

(** X5: with the constants of the notebook ([dt], [Q], [R] and the
    initial [P] of lines 66, 124, 163-169 and 279-285) the run on a log of
    at least one line, as long as it divides by no zero, never raises: it
    writes one row for each line of the log and ends with a state whose
    covariance is symmetric and positive semidefinite. *)
Theorem X5_notebook_completes (l0 : Log.line) (rest : list Log.line) :
  divides_safely Notebook.dt Notebook.Q Notebook.R (samples (l0 :: rest))
    (x_init (sample_at (l0 :: rest) 0)) Notebook.P ->
  exists rows x P,
    notebook (l0 :: rest) = (rows, Some (x, P))
    /\ length rows = length (l0 :: rest)
    /\ symmetric 5 P /\ psd 5 P.
Proof.
  intros _. unfold notebook.
  destruct (run_completes Notebook.dt Notebook.Q Notebook.R
              notebook_Q_symmetric notebook_Q_psd notebook_R_symmetric
              notebook_R_pd (samples (l0 :: rest))
              (x_init (sample_at (l0 :: rest) 0)) Notebook.P
              notebook_P_symmetric notebook_P_psd)
    as (rows & x & P & Hrun & Hlen & HP & Hpsd).
  exists rows, x, P. rewrite length_samples in Hlen. auto.
Qed.

Lemma X5_notebook_completes_witness :
  exists rows x P,
    notebook [Example.line_a; Example.line_b] = (rows, Some (x, P))
    /\ length rows = 2%nat
    /\ symmetric 5 P /\ psd 5 P.
Proof.
  refine (X5_notebook_completes Example.line_a [Example.line_b] _).
  apply straight_divides_safely. unfold samples.
  rewrite length_mxs. cbn [length seq map].
  repeat constructor; apply ddstate_straight; unfold sample_at;
    cbn [yawrate map nth Log.yawrate Example.line_a Example.line_b];
    rewrite Rabs_R0; lra.
Defined.

(** X6: when the measurement equals what the predicted state lets
    expect, [Z = hx], the step returns the predicted state unchanged
    (under the conditions of X4, which let the step return). *)
Theorem X6_zero_innovation (dt : R) (Q Rm : Mat) (x : Vec) (P : Mat)
    (s : Sample) :
  symmetric 5 Q -> psd 5 Q -> symmetric 4 Rm -> pd 4 Rm ->
  symmetric 5 P -> psd 5 P ->
  (forall k, (k < 4)%nat -> Z s k = hx (predict dt x s) k) ->
  exists P', filterstep dt Q Rm x P s = Some (predict dt x s, P').
Proof.
  intros HQ HQpsd HR HRpd HP Hpsd Hz.
  destruct (filterstep_covariance dt Q Rm HQ HQpsd HR HRpd x P s HP Hpsd)
    as (x' & P' & Hstep & _).
  exists P'. rewrite Hstep. f_equal. f_equal.
  unfold filterstep in Hstep.
  apply (correct_zero_innovation Rm _ _ s x' P' Hz Hstep).
Qed.

Lemma X6_zero_innovation_witness :
  exists P',
    filterstep Notebook.dt Notebook.Q Notebook.R Example.state Notebook.P
      Example.expected
    = Some (predict Notebook.dt Example.state Example.expected, P').
Proof.
  refine (X6_zero_innovation Notebook.dt Notebook.Q Notebook.R
            Example.state Notebook.P Example.expected
            notebook_Q_symmetric notebook_Q_psd notebook_R_symmetric
            notebook_R_pd notebook_P_symmetric notebook_P_psd _).
  assert (Hpi := PI_RGT_0).
  assert (Hd : ddstate Example.expected = 0%Z).
  { apply ddstate_straight. unfold Example.expected. simpl.
    rewrite Rabs_pos_eq.
    - apply (Rmult_lt_reg_r PI); [exact Hpi|]. unfold Rdiv.
      rewrite Rmult_assoc, Rinv_l by lra. pose proof PI2_1. lra.
    - apply Rlt_le, Rdiv_lt_0_compat; lra. }
  intros k Hk. unfold predict. rewrite Hd. change (Z.eqb 0 0) with true.
  unfold hx, Z, Example.expected, Example.state, Notebook.dt.
  index_cases k Hk; cbv [of_list nth upd Nat.eqb mx my speed yawrate];
    rewrite ?cos_0, ?sin_0; try lra.
  literals. field. lra.
Defined.

(** X7: on a step without a position fix, with a diagonal [R], the two
    columns of the gain that weigh the position residuals are zero, and
    the step returns the same state and covariance whatever the position
    the sample carries: two samples without a fix that agree in speed and
    yaw rate give the same result. *)
Theorem X7_no_fix_ignores_position (dt : R) (Q Rm : Mat) (x : Vec)
    (P : Mat) (s1 s2 : Sample) :
  diagonal 4 Rm ->
  GPS s1 = false -> GPS s2 = false ->
  speed s1 = speed s2 -> yawrate s1 = yawrate s2 ->
  filterstep dt Q Rm x P s1 = filterstep dt Q Rm x P s2
  /\ (forall P0 i,
        K_of P0 s1 (inverse4 (S_of Rm P0 s1)) i 0%nat = 0
        /\ K_of P0 s1 (inverse4 (S_of Rm P0 s1)) i 1%nat = 0).
Proof.
  intros HR H1 H2 Hv Hw. split.
  - apply filterstep_no_fix; assumption.
  - intros P0 i. split; apply gain_no_fix; try assumption; lia.
Qed.

Lemma X7_no_fix_ignores_position_witness :
  filterstep Notebook.dt Notebook.Q Notebook.R Example.state Notebook.P
    Example.turning
  = filterstep Notebook.dt Notebook.Q Notebook.R Example.state Notebook.P
      Example.elsewhere.
Proof.
  exact (proj1 (X7_no_fix_ignores_position Notebook.dt Notebook.Q
                  Notebook.R Example.state Notebook.P Example.turning
                  Example.elsewhere notebook_R_diagonal eq_refl eq_refl
                  eq_refl eq_refl)).
Defined.

(** X8: row [k] of the output is built from the state with which step
    [k] begins, that is the initial state for the first row and the
    state the previous step returned for every other row, and from the
    sample of step [k]. *)
Theorem X8_row_holds_entry_state (dt : R) (Q Rm : Mat)
    (samples : list Sample) (x : Vec) (P : Mat) (k : nat) (s : Sample)
    (xk : Vec) (Pk : Mat) :
  state_at dt Q Rm k samples x P = Some (xk, Pk) ->
  nth_error samples k = Some s ->
  nth_error (fst (run dt Q Rm samples x P)) k = Some (dataout xk s).
Proof. apply run_rows. Qed.

Lemma X8_row_holds_entry_state_witness :
  nth_error
    (fst (run Notebook.dt Notebook.Q Notebook.R [Example.straight]
            Example.state Notebook.P)) 0
  = Some (dataout Example.state Example.straight).
Proof.
  exact (X8_row_holds_entry_state Notebook.dt Notebook.Q Notebook.R
           [Example.straight] Example.state Notebook.P 0 Example.straight
           Example.state Notebook.P eq_refl eq_refl).
Defined.

Lemma det_first_row_zero (n : nat) (A : Mat) :
  (forall j, A 0%nat j = 0) -> det (S n) A = 0.
Proof.
  intros H. cbn [det]. apply rsum_zero. intros j _. rewrite H. ring.
Qed.

Lemma filterstep_all_zero (dt : R) (x : Vec) (s : Sample) :
  filterstep dt Example.zero Example.zero x Example.zero s = None.
Proof.
  unfold filterstep, correct.
  assert (Hd : det 4 (S_of Example.zero
                        (P_pred dt Example.zero x Example.zero s) s) = 0).
  { apply det_first_row_zero. intros j. unfold S_of, madd, Example.zero.
    rewrite Rplus_0_r. unfold mmul at 1. apply rsum_zero. intros k _.
    replace (mmul 5 (JH s) (P_pred dt (fun _ _ => 0) x (fun _ _ => 0) s)
               0%nat k) with 0; [ring|].
    symmetry. unfold mmul. apply rsum_zero. intros l _.
    replace (P_pred dt (fun _ _ => 0) x (fun _ _ => 0) s l k) with 0;
      [ring|].
    symmetry. unfold P_pred, madd. rewrite Rplus_0_r.
    unfold mmul at 1. apply rsum_zero. intros m _.
    replace (mmul 5 (JA dt (predict dt x s)) (fun _ _ => 0) l m) with 0;
      [ring|].
    symmetry. unfold mmul. apply rsum_zero. intros; ring. }
  apply inv_none in Hd. rewrite Hd. reflexivity.
Qed.

(** X9: when the inversion raises in step [k], the row of step [k] has
    already been written: the output then holds exactly [k+1] rows and
    the loop ends without a state. *)
Theorem X9_rows_when_a_step_raises (dt : R) (Q Rm : Mat)
    (samples : list Sample) (x : Vec) (P : Mat) (k : nat) (s : Sample)
    (xk : Vec) (Pk : Mat) :
  state_at dt Q Rm k samples x P = Some (xk, Pk) ->
  nth_error samples k = Some s ->
  filterstep dt Q Rm xk Pk s = None ->
  snd (run dt Q Rm samples x P) = None
  /\ length (fst (run dt Q Rm samples x P)) = S k.
Proof. apply run_rows_on_failure. Qed.

Lemma X9_rows_when_a_step_raises_witness :
  snd (run Notebook.dt Example.zero Example.zero
         [Example.straight; Example.turning] Example.state Example.zero)
  = None
  /\ length (fst (run Notebook.dt Example.zero Example.zero
                    [Example.straight; Example.turning] Example.state
                    Example.zero)) = 1%nat.
Proof.
  exact (X9_rows_when_a_step_raises Notebook.dt Example.zero Example.zero
           [Example.straight; Example.turning] Example.state Example.zero
           0 Example.straight Example.state Example.zero eq_refl eq_refl
           (filterstep_all_zero Notebook.dt Example.state
              Example.straight)).
Defined.

(** X10: the wrap of line 447 keeps the direction: on the turning
    branch the new heading has the cosine and the sine of
    [psi + psi_dot*dt]; and it changes nothing inside the interval: when
    [psi + psi_dot*dt] lies in [[-pi, pi)] the new heading is
    [psi + psi_dot*dt] itself. *)
Theorem X10_wrap_keeps_direction (dt : R) (x : Vec) (s : Sample) :
  ddstate s = 1%Z ->
  let a := x 2%nat + x 4%nat * dt in
  cos (predict dt x s 2%nat) = cos a
  /\ sin (predict dt x s 2%nat) = sin a
  /\ (- PI <= a < PI -> predict dt x s 2%nat = a).
Proof.
  intros Hd a.
  destruct (predict_components_turning dt x s Hd) as (_ & _ & H2).
  rewrite H2. fold a.
  destruct (wrap_same_direction a) as [Hc Hs].
  split; [exact Hc|]. split; [exact Hs|]. apply wrap_in_range.
Qed.

Lemma X10_wrap_keeps_direction_witness :
  cos (predict Notebook.dt Example.state Example.turning 2%nat)
  = cos (Example.state 2%nat + Example.state 4%nat * Notebook.dt).
Proof.
  exact (proj1 (X10_wrap_keeps_direction Notebook.dt Example.state
                  Example.turning ddstate_example_turning)).
Defined.

(** X11: a prediction on the turning branch, the yaw rate not being
    zero, moves the position along a circle of radius [v / psi_dot] by
    the angle the heading turns: with [r = v / psi_dot] and the centre
    [(x - r*sin(psi), y + r*cos(psi))], the position before is the point
    of the circle at the heading [psi], the position after is the point
    at the new heading, and the new heading has the cosine and the sine
    of [psi + psi_dot*dt]. *)
Theorem X11_turning_follows_a_circle (dt : R) (x : Vec) (s : Sample) :
  ddstate s = 1%Z -> x 4%nat <> 0 ->
  let x' := predict dt x s in
  let r := x 3%nat / x 4%nat in
  let cx := x 0%nat - r * sin (x 2%nat) in
  let cy := x 1%nat + r * cos (x 2%nat) in
  x' 0%nat = cx + r * sin (x' 2%nat)
  /\ x' 1%nat = cy - r * cos (x' 2%nat)
  /\ cos (x' 2%nat) = cos (x 2%nat + x 4%nat * dt)
  /\ sin (x' 2%nat) = sin (x 2%nat + x 4%nat * dt)
  /\ (x 0%nat - cx) ^ 2 + (x 1%nat - cy) ^ 2 = r ^ 2
  /\ (x' 0%nat - cx) ^ 2 + (x' 1%nat - cy) ^ 2 = r ^ 2.
Proof.
  intros Hd _ x' r cx cy.
  destruct (predict_components_turning dt x s Hd) as (H0 & H1 & H2).
  destruct (wrap_same_direction (x 2%nat + x 4%nat * dt)) as [Hc Hs].
  cbv zeta in Hc, Hs. rewrite <- H2 in Hc, Hs. fold x' in Hc, Hs.
  destruct (turning_on_circle dt x s Hd) as [Hb Ha].
  fold x' in H0, H1. rewrite (Rplus_comm (x 4%nat * dt)) in H0, H1.
  split; [|split; [|split; [exact Hc|split; [exact Hs|split]]]].
  - rewrite Hs, H0. unfold cx. fold r. ring.
  - rewrite Hc, H1. unfold cy. fold r. ring.
  - exact Hb.
  - exact Ha.
Qed.

Lemma X11_turning_follows_a_circle_witness :
  let x := Example.circling in
  let x' := predict Notebook.dt x Example.turning in
  let r := x 3%nat / x 4%nat in
  x' 0%nat = x 0%nat - r * sin (x 2%nat) + r * sin (x' 2%nat).
Proof.
  refine (proj1 (X11_turning_follows_a_circle Notebook.dt Example.circling
                   Example.turning ddstate_example_turning _)).
  unfold Example.circling, of_list. cbv [nth]. lra.
Defined.

(** X12: a prediction on the straight-line branch moves the position by
    exactly [|v| * dt]: the squared distance between the position before
    and the position after is [(v*dt)^2]. *)
Theorem X12_straight_step_length (dt : R) (x : Vec) (s : Sample) :
  ddstate s = 0%Z ->
  (predict dt x s 0%nat - x 0%nat) ^ 2 + (predict dt x s 1%nat - x 1%nat) ^ 2
  = (x 3%nat * dt) ^ 2.
Proof. apply straight_distance. Qed.

Lemma X12_straight_step_length_witness :
  (predict Notebook.dt Example.state Example.straight 0%nat
   - Example.state 0%nat) ^ 2
  + (predict Notebook.dt Example.state Example.straight 1%nat
     - Example.state 1%nat) ^ 2
  = (Example.state 3%nat * Notebook.dt) ^ 2.
Proof.
  exact (X12_straight_step_length Notebook.dt Example.state
           Example.straight ddstate_example_straight).
Defined.

(** X13: the first step of the notebook never divides by zero: the
    initial state takes its yaw rate from the very sample the branch
    test of the first step reads, so whenever that step takes the
    turning branch the yaw rate it divides by is not zero, and on the
    straight-line branch the Jacobian divides by the epsilon. *)
Theorem X13_first_step_divides_safely (s0 : Sample) :
  Forall (fun d => d <> 0)
    (prediction_divisors (x_init s0) s0
     ++ jacobian_divisors (predict Notebook.dt (x_init s0) s0)).
Proof. apply first_step_divisors. Qed.

(** X14: the track starts at the origin with a fix: for a log of at
    least one line the first sample has [mx = 0], [my = 0] and the
    trigger [GPS] set, so the initial state of line 348 sits at
    [(0, 0)]. *)
Theorem X14_track_starts_at_origin (l0 : Log.line) (rest : list Log.line) :
  let log := l0 :: rest in
  let s0 := sample_at log 0 in
  nth_error (samples log) 0 = Some s0
  /\ mx s0 = 0 /\ my s0 = 0 /\ GPS s0 = true
  /\ x_init s0 0%nat = 0 /\ x_init s0 1%nat = 0.
Proof.
  intros log s0.
  assert (Hx : mx s0 = 0).
  { unfold s0, sample_at, mxs, dx, arc, log. simpl. lra. }
  assert (Hy : my s0 = 0).
  { unfold s0, sample_at, mys, dy, arc, log. simpl. lra. }
  split; [apply nth_samples; simpl; lia|].
  repeat split; try assumption.
Qed.

(** X15: between two consecutive lines of the log the planar position
    advances by the arc length of the change in longitude and latitude:
    [mx] grows by [arc * cos(latitude) * (change of longitude)] and [my]
    by [arc * (change of latitude)], with [arc] and the cosine taken at
    the later line. *)
Theorem X15_position_increments (log : list Log.line) (k : nat)
    (la lb : Log.line) :
  nth_error log k = Some la -> nth_error log (S k) = Some lb ->
  let arc_b := 2.0 * PI * (RadiusEarth + Log.altitude lb) / 360.0 in
  mx (sample_at log (S k)) - mx (sample_at log k)
  = arc_b * cos (Log.latitude lb * PI / 180.0)
    * (Log.longitude lb - Log.longitude la)
  /\ my (sample_at log (S k)) - my (sample_at log k)
     = arc_b * (Log.latitude lb - Log.latitude la).
Proof.
  intros Ha Hb arc_b.
  assert (Hk : (S k < length log)%nat)
    by (apply nth_error_Some; rewrite Hb; discriminate).
  unfold sample_at, mxs, mys. cbn [mx my].
  rewrite !nth_cumsum_step by (rewrite ?length_dx, ?length_dy; exact Hk).
  rewrite (nth_dx log k la lb Ha Hb), (nth_dy log k la lb Ha Hb).
  split; reflexivity.
Qed.

Lemma X15_position_increments_witness :
  my (sample_at [Example.line_a; Example.line_b] 1)
  - my (sample_at [Example.line_a; Example.line_b] 0)
  = 2.0 * PI * (RadiusEarth + Log.altitude Example.line_b) / 360.0
    * (Log.latitude Example.line_b - Log.latitude Example.line_a).
Proof.
  exact (proj2 (X15_position_increments
                  [Example.line_a; Example.line_b] 0 Example.line_a
                  Example.line_b eq_refl eq_refl)).
Defined.

Lemma ds_is_step_length (log : list Log.line) (k : nat) :
  (S k < length log)%nat ->
  nth (S k) (ds log) 0
  = sqrt ((mx (sample_at log (S k)) - mx (sample_at log k)) ^ 2
          + (my (sample_at log (S k)) - my (sample_at log k)) ^ 2).
Proof.
  intros Hk. rewrite nth_ds by exact Hk.
  unfold sample_at, mxs, mys. cbn [mx my].
  rewrite !nth_cumsum_step by (rewrite ?length_dx, ?length_dy; exact Hk).
  reflexivity.
Qed.

(** X16: from the second sample on, the trigger [GPS] of a sample is set
    exactly when the distance covered since the previous sample is
    greater than the distance covered in the step before: [ds] holds the
    distances between consecutive positions, and [GPS[k+1]] is
    [ds[k+1] > ds[k]]. *)
Theorem X16_fix_trigger (log : list Log.line) (k : nat) :
  (S k < length log)%nat ->
  (GPS (sample_at log (S k)) = true
   <-> nth k (ds log) 0 < nth (S k) (ds log) 0)
  /\ nth (S k) (ds log) 0
     = sqrt ((mx (sample_at log (S k)) - mx (sample_at log k)) ^ 2
             + (my (sample_at log (S k)) - my (sample_at log k)) ^ 2).
Proof.
  intros Hk. split.
  - unfold sample_at. cbn [GPS]. apply nth_GPSs. exact Hk.
  - apply ds_is_step_length. exact Hk.
Qed.

Lemma X16_fix_trigger_witness :
  GPS (sample_at [Example.line_a; Example.line_b] 1) = true
  <-> nth 0 (ds [Example.line_a; Example.line_b]) 0
      < nth 1 (ds [Example.line_a; Example.line_b]) 0.
Proof.
  refine (proj1 (X16_fix_trigger [Example.line_a; Example.line_b] 0 _)).
  simpl. lia.
Defined.

(** X17: a sample whose line repeats the latitude and the longitude of
    the line before it has no fix. *)
Theorem X17_unchanged_position_has_no_fix (log : list Log.line) (k : nat)
    (la lb : Log.line) :
  nth_error log k = Some la -> nth_error log (S k) = Some lb ->
  Log.latitude la = Log.latitude lb ->
  Log.longitude la = Log.longitude lb ->
  GPS (sample_at log (S k)) = false.
Proof.
  intros Ha Hb Hlat Hlon.
  assert (Hk : (S k < length log)%nat)
    by (apply nth_error_Some; rewrite Hb; discriminate).
  apply not_true_is_false. intros Hg.
  unfold sample_at in Hg. cbn [GPS] in Hg.
  apply nth_GPSs in Hg; [|exact Hk].
  rewrite (nth_ds log (S k)) in Hg by exact Hk.
  rewrite (nth_dx log k la lb Ha Hb), (nth_dy log k la lb Ha Hb) in Hg.
  rewrite Hlat, Hlon in Hg.
  replace (_ ^ 2 + _ ^ 2) with 0 in Hg by ring.
  rewrite sqrt_0 in Hg.
  rewrite (nth_ds log k) in Hg by lia.
  pose proof (sqrt_pos (nth k (dx log) 0 ^ 2 + nth k (dy log) 0 ^ 2)).
  lra.
Qed.

Lemma X17_unchanged_position_has_no_fix_witness :
  GPS (sample_at [Example.line_a; Example.line_a] 1) = false.
Proof.
  exact (X17_unchanged_position_has_no_fix
           [Example.line_a; Example.line_a] 0 Example.line_a
           Example.line_a eq_refl eq_refl eq_refl eq_refl).
Defined.

Section HistoryOfDefiniteRuns.

Variables (dt : R) (Q Rm : Mat).
Hypothesis Q_symmetric : symmetric 5 Q.
Hypothesis Q_psd : psd 5 Q.
Hypothesis Rm_symmetric : symmetric 4 Rm.
Hypothesis Rm_pd : pd 4 Rm.

Lemma history_total (samples : list Sample) (x : Vec) (P : Mat) :
  symmetric 5 P -> psd 5 P ->
  length (history dt Q Rm samples x P) = length samples
  /\ dstate dt Q Rm samples x P = map ddstate samples
  /\ Forall (fun h => 0 <= Plots.Px h /\ 0 <= Plots.Py h
                      /\ 0 <= Plots.Pdx h /\ 0 <= Plots.Pdy h
                      /\ 0 <= Plots.Pddx h)
       (history dt Q Rm samples x P).
Proof.
  revert x P. induction samples as [|s rest IH]; intros x P HP Hpsd.
  - repeat split. constructor.
  - destruct (filterstep_covariance dt Q Rm Q_symmetric Q_psd Rm_symmetric
                Rm_pd x P s HP Hpsd) as (x1 & P1 & Hstep & HP1 & Hpsd1).
    pose proof (saved_of_filterstep dt Q Rm x P s) as Hs.
    simpl. rewrite Hstep in *.
    destruct (saved_of dt Q Rm x P s) as [h|]; [|contradiction].
    destruct Hs as (_ & HPh & _).
    destruct (IH x1 P1 HP1 Hpsd1) as (H1 & H2 & H3).
    simpl. rewrite H1, H2. repeat split. constructor; [|exact H3].
    injection HPh as -> -> -> -> ->.
    repeat split; apply (psd_diag_nonneg 5); try assumption; lia.
Qed.

End HistoryOfDefiniteRuns.

Lemma nth_error_in_range (A : Type) (l : list A) (k : nat) :
  (k < length l)%nat -> exists a, nth_error l k = Some a.
Proof.
  intros Hk. destruct (nth_error l k) as [a|] eqn:H; [exists a; reflexivity|].
  apply nth_error_None in H. lia.
Qed.

(** X18: the histories [Kx], [Ky], [Kdx], [Kdy] and [Kddx] record the
    first column of the gain; with a diagonal [R], in a loop that
    divides by no zero, every entry they record for a step without a
    position fix is zero. *)
Theorem X18_gain_history_without_fix (dt : R) (Q Rm : Mat)
    (samples : list Sample) (x : Vec) (P : Mat) (k : nat) (s : Sample)
    (h : Plots.saved) :
  diagonal 4 Rm ->
  divides_safely dt Q Rm samples x P ->
  nth_error samples k = Some s -> GPS s = false ->
  nth_error (history dt Q Rm samples x P) k = Some h ->
  [Plots.Kx h; Plots.Ky h; Plots.Kdx h; Plots.Kdy h; Plots.Kddx h]
  = [0; 0; 0; 0; 0].
Proof. intros HR _. apply history_gain_no_fix. exact HR. Qed.

Lemma X18_gain_history_without_fix_witness :
  exists h,
    nth_error (history Notebook.dt Notebook.Q Notebook.R
                 [Example.straight; Example.coasting] Example.state
                 Notebook.P) 1 = Some h
    /\ [Plots.Kx h; Plots.Ky h; Plots.Kdx h; Plots.Kdy h; Plots.Kddx h]
       = [0; 0; 0; 0; 0].
Proof.
  destruct (nth_error_in_range _
              (history Notebook.dt Notebook.Q Notebook.R
                 [Example.straight; Example.coasting] Example.state
                 Notebook.P) 1) as [h Hh].
  - rewrite (proj1 (history_total Notebook.dt Notebook.Q Notebook.R
                      notebook_Q_symmetric notebook_Q_psd
                      notebook_R_symmetric notebook_R_pd
                      [Example.straight; Example.coasting] Example.state
                      Notebook.P notebook_P_symmetric notebook_P_psd)).
    simpl. lia.
  - exists h. split; [exact Hh|].
    exact (X18_gain_history_without_fix Notebook.dt Notebook.Q Notebook.R
             [Example.straight; Example.coasting] Example.state Notebook.P
             1 Example.coasting h notebook_R_diagonal
             (example_divides_safely Notebook.dt Notebook.Q Notebook.R
                Example.state Notebook.P) eq_refl eq_refl Hh).
Defined.

(** X19: entry [k] of the histories [x0 .. x4] holds the state that
    step [k] returns, and that is the state row [k+1] of the output
    carries: the rows run one step behind the histories. *)
Theorem X19_history_is_next_row (dt : R) (Q Rm : Mat)
    (samples : list Sample) (x : Vec) (P : Mat) (k : nat)
    (h : Plots.saved) (row : list R) :
  nth_error (history dt Q Rm samples x P) k = Some h ->
  nth_error (fst (run dt Q Rm samples x P)) (S k) = Some row ->
  firstn 5 row
  = [Plots.x0 h; Plots.x1 h; Plots.x2 h; Plots.x3 h; Plots.x4 h].
Proof. apply history_next_row. Qed.

Lemma X19_history_is_next_row_witness :
  exists h row,
    nth_error (history Notebook.dt Notebook.Q Notebook.R
                 [Example.straight; Example.turning] Example.state
                 Notebook.P) 0 = Some h
    /\ nth_error (fst (run Notebook.dt Notebook.Q Notebook.R
                         [Example.straight; Example.turning]
                         Example.state Notebook.P)) 1 = Some row
    /\ firstn 5 row
       = [Plots.x0 h; Plots.x1 h; Plots.x2 h; Plots.x3 h; Plots.x4 h].
Proof.
  destruct (nth_error_in_range _
              (history Notebook.dt Notebook.Q Notebook.R
                 [Example.straight; Example.turning] Example.state
                 Notebook.P) 0) as [h Hh].
  - rewrite (proj1 (history_total Notebook.dt Notebook.Q Notebook.R
                      notebook_Q_symmetric notebook_Q_psd
                      notebook_R_symmetric notebook_R_pd
                      [Example.straight; Example.turning] Example.state
                      Notebook.P notebook_P_symmetric notebook_P_psd)).
    simpl. lia.
  - destruct (run_completes Notebook.dt Notebook.Q Notebook.R
                notebook_Q_symmetric notebook_Q_psd notebook_R_symmetric
                notebook_R_pd [Example.straight; Example.turning]
                Example.state Notebook.P notebook_P_symmetric
                notebook_P_psd) as (rows & x' & P' & Hrun & Hlen & _).
    destruct (nth_error_in_range _ rows 1) as [row Hrow];
      [rewrite Hlen; simpl; lia|].
    exists h, row. split; [exact Hh|].
    assert (Hr : nth_error
                   (fst (run Notebook.dt Notebook.Q Notebook.R
                           [Example.straight; Example.turning]
                           Example.state Notebook.P)) 1 = Some row)
      by (rewrite Hrun; exact Hrow).
    split; [exact Hr|].
    exact (X19_history_is_next_row Notebook.dt Notebook.Q Notebook.R
             [Example.straight; Example.turning] Example.state Notebook.P
             0 h row Hh Hr).
Defined.

(** X20: under the conditions of X4, in a loop that divides by no zero,
    the histories are complete: they hold one entry for each sample, the
    history [dstate] is the list of the branch flags of the samples, and
    no variance recorded in [Px], [Py], [Pdx], [Pdy], [Pddx] is
    negative. *)
Theorem X20_histories_complete (dt : R) (Q Rm : Mat)
    (samples : list Sample) (x : Vec) (P : Mat) :
  symmetric 5 Q -> psd 5 Q -> symmetric 4 Rm -> pd 4 Rm ->
  symmetric 5 P -> psd 5 P ->
  divides_safely dt Q Rm samples x P ->
  length (history dt Q Rm samples x P) = length samples
  /\ dstate dt Q Rm samples x P = map ddstate samples
  /\ Forall (fun h => 0 <= Plots.Px h /\ 0 <= Plots.Py h
                      /\ 0 <= Plots.Pdx h /\ 0 <= Plots.Pdy h
                      /\ 0 <= Plots.Pddx h)
       (history dt Q Rm samples x P).
Proof. intros HQ HQp HR HRp HP Hp _. apply history_total; assumption. Qed.

Lemma X20_histories_complete_witness :
  length (history Notebook.dt Notebook.Q Notebook.R
            [Example.straight; Example.coasting] Example.state Notebook.P)
  = 2%nat.
Proof.
  exact (proj1 (X20_histories_complete Notebook.dt Notebook.Q Notebook.R
                  [Example.straight; Example.coasting] Example.state
                  Notebook.P notebook_Q_symmetric notebook_Q_psd
                  notebook_R_symmetric notebook_R_pd notebook_P_symmetric
                  notebook_P_psd
                  (example_divides_safely Notebook.dt Notebook.Q Notebook.R
                     Example.state Notebook.P))).
Defined.

(** * The covariance, the output and the measurement noise *)

Section Invariant.

Variables (dt : R) (Q Rm : Mat).
Hypothesis Q_symmetric : symmetric 5 Q.
Hypothesis Q_psd : psd 5 Q.
Hypothesis Rm_symmetric : symmetric 4 Rm.
Hypothesis Rm_pd : pd 4 Rm.


End Invariant.



Lemma ddstate_example_expected : ddstate Example.expected = 0%Z.
Proof.
  assert (Hpi := PI_RGT_0). apply ddstate_straight.
  unfold Example.expected. simpl. rewrite Rabs_pos_eq.
  - apply (Rmult_lt_reg_r PI); [exact Hpi|]. unfold Rdiv.
    rewrite Rmult_assoc, Rinv_l by lra. pose proof PI2_1. lra.
  - apply Rlt_le, Rdiv_lt_0_compat; lra.
Qed.

Lemma example_expected_innovation (k : nat) :
  (k < 4)%nat ->
  Z Example.expected k
  = hx (predict Notebook.dt Example.state Example.expected) k.
Proof.
  intros Hk. assert (Hpi := PI_RGT_0).
  unfold predict. rewrite ddstate_example_expected.
  change (Z.eqb 0 0) with true.
  unfold hx, Z, Example.expected, Example.state, Notebook.dt.
  index_cases k Hk; cbv [of_list nth upd Nat.eqb mx my speed yawrate];
    rewrite ?cos_0, ?sin_0; try lra.
  literals. field. lra.
Qed.

(** C8, as stated, fails: the step that starts from the state
    [(0, 0, 0, 1, 0)] with a sample that reports what the model expects
    returns a state whose first component is 1/50, and the row written
    for that sample holds the components of the state before the step,
    the first of which is 0. *)
Lemma C8_row_holds_the_state_before :
  exists x' P',
    filterstep Notebook.dt Notebook.Q Notebook.R Example.state Notebook.P
      Example.expected = Some (x', P')
    /\ x' 0%nat = 1 / 50
    /\ firstn 5 (dataout Example.state Example.expected) = [0; 0; 0; 1; 0]
    /\ firstn 5 (dataout Example.state Example.expected)
       <> [x' 0%nat; x' 1%nat; x' 2%nat; x' 3%nat; x' 4%nat].
Proof.
  destruct (filterstep_covariance Notebook.dt Notebook.Q Notebook.R
              notebook_Q_symmetric notebook_Q_psd notebook_R_symmetric
              notebook_R_pd Example.state Notebook.P Example.expected
              notebook_P_symmetric notebook_P_psd)
    as (x' & P' & Hstep & _).
  exists x', P'. split; [exact Hstep|].
  assert (Hx : x' = predict Notebook.dt Example.state Example.expected).
  { unfold filterstep in Hstep.
    apply (correct_zero_innovation Notebook.R _ _ Example.expected x' P'
             example_expected_innovation Hstep). }
  assert (H0 : x' 0%nat = 1 / 50).
  { rewrite Hx. unfold predict. rewrite ddstate_example_expected.
    change (Z.eqb 0 0) with true.
    unfold Example.state, Notebook.dt. cbv [of_list nth upd Nat.eqb].
    rewrite cos_0. lra. }
  split; [exact H0|]. split; [reflexivity|].
  intros H. injection H as H _. unfold Example.state, of_list in H.
  cbv [nth] in H. lra.
Qed.

(** C8, amended: the record written for a sample holds the state
    estimate with which the step of that sample begins (the initial
    state for the first sample, the corrected state of the sample before
    for every other), the measurement vector of the sample, the
    degenerate-branch flag and the position-fix flag, in the order
    [x0,x1,x2,x3,x4,z0,z1,z2,z3,dstate,gps]. *)
Theorem C8_row_contents (dt : R) (Q Rm : Mat) (samples : list Sample)
    (x : Vec) (P : Mat) (k : nat) (s : Sample) (xk : Vec) (Pk : Mat) :
  state_at dt Q Rm k samples x P = Some (xk, Pk) ->
  nth_error samples k = Some s ->
  nth_error (fst (run dt Q Rm samples x P)) k
  = Some [xk 0%nat; xk 1%nat; xk 2%nat; xk 3%nat; xk 4%nat;
          mx s; my s; speed s / 3.6; yawrate s / 180.0 * PI;
          IZR (ddstate s); if GPS s then 1 else 0].
Proof.
  intros Hst Hs. rewrite (run_rows dt Q Rm samples x P k s xk Pk Hst Hs).
  reflexivity.
Qed.

Lemma C8_row_contents_witness :
  nth_error
    (fst (run Notebook.dt Notebook.Q Notebook.R [Example.expected]
            Example.state Notebook.P)) 0
  = Some [Example.state 0%nat; Example.state 1%nat; Example.state 2%nat;
          Example.state 3%nat; Example.state 4%nat;
          mx Example.expected; my Example.expected;
          speed Example.expected / 3.6;
          yawrate Example.expected / 180.0 * PI;
          IZR (ddstate Example.expected);
          if GPS Example.expected then 1 else 0].
Proof.
  exact (C8_row_contents Notebook.dt Notebook.Q Notebook.R
           [Example.expected] Example.state Notebook.P 0 Example.expected
           Example.state Notebook.P eq_refl eq_refl).
Defined.

(** ** A measurement noise with a zero variance *)








(** ** Steps without a position fix, once more *)

(** C10: for a step whose sample carries no position fix, with a
    diagonal [R], the step returns the same state and the same
    covariance when the position components of the measurement are
    replaced by any other values, and, the inversion of [S] having
    succeeded, the two columns of the gain of that step that weigh the
    position residuals are zero. *)
Theorem C10_no_fix_ignores_position (dt : R) (Q Rm : Mat) (x : Vec)
    (P : Mat) (s : Sample) (z0 z1 : R) :
  diagonal 4 Rm -> GPS s = false ->
  let s' := {| mx := z0; my := z1; course := course s; speed := speed s;
               yawrate := yawrate s; GPS := GPS s |} in
  let Pp := P_pred dt Q x P s in
  filterstep dt Q Rm x P s' = filterstep dt Q Rm x P s
  /\ (forall Sinv i,
        inv 4 (S_of Rm Pp s) = Some Sinv ->
        K_of Pp s Sinv i 0%nat = 0 /\ K_of Pp s Sinv i 1%nat = 0).
Proof.
  intros HR Hg s' Pp. split.
  - apply filterstep_no_fix; try assumption; reflexivity.
  - intros Sinv i Hinv.
    destruct (inv_some_inverse4 _ _ Hinv) as [_ ->].
    split; apply gain_no_fix; try assumption; lia.
Qed.

Lemma C10_no_fix_ignores_position_witness :
  filterstep Notebook.dt Notebook.Q Notebook.R Example.state Notebook.P
    {| mx := 7; my := -3; course := course Example.coasting;
       speed := speed Example.coasting;
       yawrate := yawrate Example.coasting;
       GPS := GPS Example.coasting |}
  = filterstep Notebook.dt Notebook.Q Notebook.R Example.state Notebook.P
      Example.coasting.
Proof.
  exact (proj1 (C10_no_fix_ignores_position Notebook.dt Notebook.Q
                  Notebook.R Example.state Notebook.P Example.coasting
                  7 (-3) notebook_R_diagonal eq_refl)).
Defined.
